(** * User settings resolvers and the schema form validator

    A shallow embedding of

    - [src/frontend/excercise-1.ts]: [schemaValidator], the asynchronous
      form rule that checks a Spark schema DDL string with a remote query;
    - [src/nodejs/graphql-node-review.ts]: the GraphQL resolvers [user],
      [users], [settingsCount], [updatedBy] and the [updateSettings]
      mutation.

    The resolvers talk to three collaborators that the source only
    declares: the relational store [db], the wall clock / UUID generator,
    and the audit service reached with [fetch].  The store is modelled as
    two tables (lists of rows); it answers every read, and it may reject an
    insert (a value it cannot store, a lost connection), in which case the
    awaited statement throws.  The clock, the UUID source, the audit
    service and the store's verdict on an insert are oracles indexed by the
    number of calls made so far, so that a second [new Date()] would
    observe a different reading.  A
    resolver is a computation in a small state-and-exception monad over
    the [World]; the world also keeps a log of the writes and of the
    outgoing HTTP calls in the order they happen. *)

From Stdlib Require Import List String ZArith Bool Arith Lia.
From Stdlib Require Import Decimal DecimalString.
Import ListNotations.

Local Open Scope string_scope.
Local Open Scope list_scope.

(* ================================================================= *)
(** ** [src/frontend/excercise-1.ts] *)

Module Excercise1.

(** The error object found in the [error] field of a query result. *)
Record ApolloError := { apollo_message : string }.

(** What a JavaScript [throw] can carry here: an [Error] built on the
    spot with [new Error(msg)], or the remote error object itself. *)
Inductive Thrown :=
| NewError (message : string)
| RemoteError (e : ApolloError).

(** Outcome of an awaited promise / of an async function body. *)
Inductive Completion (A : Type) :=
| Resolved (a : A)
| Rejected (t : Thrown).
Arguments Resolved {A} a.
Arguments Rejected {A} t.

(** The part of the query result the validator looks at:
    [const { error } = await validator(...)]. *)
Record QueryResult := { error : option ApolloError }.

Record Variables := { sparkSchemaDDL : string }.

(** [LazyQueryExecFunction<void, ValidateSparkSchemaDDLVariables>],
    called with [{ variables }]. *)
Definition LazyQueryExecFunction := Variables -> Completion QueryResult.

(** [try { body } catch { handler }]: the handler takes no binding, so
    it cannot depend on what was thrown. *)
Definition try_catch {A} (body : Completion A) (handler : Completion A)
  : Completion A :=
  match body with
  | Resolved a => Resolved a
  | Rejected _ => handler
  end.

(** [!value] on a string: only the empty string is falsy. *)
Definition falsy (value : string) : bool :=
  match value with
  | EmptyString => true
  | String _ _ => false
  end.

Definition schemaValidator (validator : LazyQueryExecFunction)
           (value : string) : Completion unit :=
  if falsy value then Rejected (NewError "Schema is required")
  else
    try_catch
      (match validator {| sparkSchemaDDL := value |} with
       | Rejected t => Rejected t
       | Resolved r =>
           match error r with
           | Some e => Rejected (RemoteError e)
           | None => Resolved tt
           end
       end)
      (Rejected (NewError "Invalid schema")).

End Excercise1.

(* ================================================================= *)
(** ** [src/nodejs/graphql-node-review.ts]: data model *)

(** A [Date] is its number of milliseconds since the epoch. *)
Definition Date := Z.

Inductive UserRole := ADMIN | MEMBER.

(** [interface Database], table [users]. *)
Record users_row := {
  u_id : string;
  u_email : string;
  u_role : UserRole;
  u_created_at : Date
}.

(** [interface Database], table [settings]. *)
Record settings_row := {
  s_id : string;
  s_user_id : string;
  s_key : string;
  s_value : string;
  s_updated_at : Date;
  s_updated_by : option string
}.

Record Database := {
  users : list users_row;
  settings : list settings_row
}.

(** [{ ...u, createdAt: u.created_at.toISOString() }] *)
Record UserView := {
  uv_id : string;
  uv_email : string;
  uv_role : UserRole;
  uv_created_at : Date;
  uv_createdAt : string
}.

(** [input SettingInput { key: String!, value: String! }] *)
Record SettingInput := { key : string; value : string }.

(** An element of the [updated] array of [updateSettings]. *)
Record UpdatedSetting := {
  us_id : string;
  us_key : string;
  us_value : string;
  us_updatedAt : string;
  us_updatedById : option string
}.

(** The resolver context [ctx]; only [ctx.userId] is read. *)
Record Ctx := { ctx_userId : option string; ctx_role : option UserRole }.

(** The object passed to [JSON.stringify] as the body of the audit call. *)
Record AuditEvent := {
  ev_eventType : string;
  ev_userId : string;
  ev_actorId : option string;
  ev_at : string;
  ev_changes : list SettingInput
}.

Record SettingsPayload := {
  p_success : bool;
  p_user : UserView;
  p_settings : list UpdatedSetting
}.

(** The [Response] of [fetch]: [ok] holds for a status in 200..299. *)
Record Response := { status : nat }.

Definition ok (r : Response) : bool :=
  ((200 <=? status r)%nat && (status r <=? 299)%nat)%bool.

(** What [await fetch(...)] can do: reject (no response at all) or
    resolve with a response carrying a status. *)
Inductive FetchOutcome :=
| NetworkError
| Responded (st : nat).

(** Values thrown by the resolvers. *)
Inductive Thrown :=
| JsError (message : string)   (* [new Error(message)] *)
| NoResultError                (* [executeTakeFirstOrThrow] on no row *)
| FetchFailed                  (* [fetch] rejected *)
| StoreError.                  (* the store rejected a statement *)

(** Externally visible effects, logged in the order they happen. *)
Inductive Effect :=
| DbUpsert (stored : settings_row)
| HttpPost (url : string) (body : AuditEvent).

(** The oracles of one execution. *)
Record Env := {
  clock : nat -> Date;               (* n-th reading of [new Date()] *)
  randomUUID : nat -> string;        (* n-th [crypto.randomUUID()] *)
  audit_service : nat -> FetchOutcome; (* answer to the n-th [fetch] *)
  insert_rejected : nat -> settings_row -> bool
    (* does the store reject the n-th insert, given its values *)
}.

Record World := {
  db : Database;
  dates_read : nat;
  uuids_drawn : nat;
  fetches : nat;
  inserts : nat;
  trace : list Effect
}.

(* ----------------------------------------------------------------- *)
(** *** The resolver monad: state over [World], plus exceptions *)

Inductive Outcome (A : Type) :=
| Returned (a : A)
| Threw (t : Thrown).
Arguments Returned {A} a.
Arguments Threw {A} t.

Definition M (A : Type) : Type := World -> World * Outcome A.

Definition ret {A} (a : A) : M A := fun w => (w, Returned a).

Definition throw {A} (t : Thrown) : M A := fun w => (w, Threw t).

Definition bind {A B} (m : M A) (k : A -> M B) : M B :=
  fun w =>
    match m w with
    | (w', Returned a) => k a w'
    | (w', Threw t) => (w', Threw t)
    end.

Notation "x <- m ;; k" := (bind m (fun x => k))
  (at level 61, m at next level, right associativity).

(** [executeTakeFirst]: the first row of the result, or [undefined]. *)
Definition executeTakeFirst {A} (query : M (list A)) : M (option A) :=
  rows <- query ;;
  ret (hd_error rows).

(** [executeTakeFirstOrThrow]: the first row, or a [NoResultError]. *)
Definition executeTakeFirstOrThrow {A} (query : M (list A)) : M A :=
  rows <- query ;;
  match hd_error rows with
  | Some r => ret r
  | None => throw NoResultError
  end.

(** [Promise.all] over an array of promises: the results in the order of
    the array, or the first rejection. *)
Fixpoint Promise_all {A} (promises : list (M A)) : M (list A) :=
  match promises with
  | [] => ret []
  | p :: rest =>
      a <- p ;;
      others <- Promise_all rest ;;
      ret (a :: others)
  end.

(* ----------------------------------------------------------------- *)
(** *** The store *)

(** [selectFrom("users").selectAll().where("id", "=", id)] *)
Definition select_users (id : string) (tbl : list users_row)
  : list users_row :=
  filter (fun u => String.eqb (u_id u) id) tbl.

(** [selectFrom("settings").where("user_id", "=", uid)] *)
Definition select_settings (uid : string) (tbl : list settings_row)
  : list settings_row :=
  filter (fun s => String.eqb (s_user_id s) uid) tbl.

(** The conflict target of the upsert: [oc.columns(["user_id", "key"])]. *)
Definition conflicts (uid k : string) (r : settings_row) : bool :=
  String.eqb (s_user_id r) uid && String.eqb (s_key r) k.

(** [doUpdateSet({ value, updated_at: now })] applied to the conflicting
    row: the two listed columns are set, every other column is kept. *)
Definition doUpdateSet (set_value : string) (set_updated_at : Date)
           (r : settings_row) : settings_row :=
  {| s_id := s_id r;
     s_user_id := s_user_id r;
     s_key := s_key r;
     s_value := set_value;
     s_updated_at := set_updated_at;
     s_updated_by := s_updated_by r |}.

(** Finds the row in conflict with [(uid, k)], rewrites it in place and
    returns the new table with the rewritten row; [None] when no row is in
    conflict. *)
Fixpoint onConflict (uid k : string) (set_value : string)
         (set_updated_at : Date) (tbl : list settings_row)
  : option (list settings_row * settings_row) :=
  match tbl with
  | [] => None
  | r :: rest =>
      if conflicts uid k r then
        let r' := doUpdateSet set_value set_updated_at r in
        Some (r' :: rest, r')
      else
        match onConflict uid k set_value set_updated_at rest with
        | Some (rest', r') => Some (r :: rest', r')
        | None => None
        end
  end.

(** [insertInto("settings").values(v).onConflict(...).returning(...)] on
    the table: the new table and the row as stored. *)
Definition insertInto_settings (v : settings_row) (set_value : string)
           (set_updated_at : Date) (tbl : list settings_row)
  : list settings_row * settings_row :=
  match onConflict (s_user_id v) (s_key v) set_value set_updated_at tbl with
  | Some (tbl', r') => (tbl', r')
  | None => (tbl ++ [v], v)
  end.

(** The row of [(uid, k)], if any. *)
Definition lookup_setting (uid k : string) (tbl : list settings_row)
  : option settings_row :=
  find (conflicts uid k) tbl.

(** The uniqueness constraint on [(user_id, key)]. *)
Definition unique_keys (tbl : list settings_row) : Prop :=
  NoDup (map (fun r => (s_user_id r, s_key r)) tbl).

(** Number of rows of [(uid, k)]. *)
Definition rows_for (uid k : string) (tbl : list settings_row) : nat :=
  List.length (filter (conflicts uid k) tbl).

(** Two rows agree on the columns an upsert never rewrites. *)
Definition same_identity (r r' : settings_row) : Prop :=
  s_id r = s_id r' /\ s_user_id r = s_user_id r' /\
  s_key r = s_key r' /\ s_updated_by r = s_updated_by r'.

(** The value of the last pair of the batch with key [k], if any. *)
Fixpoint last_value (k : string) (inputs : list SettingInput)
  : option string :=
  match inputs with
  | [] => None
  | input :: rest =>
      match last_value k rest with
      | Some v => Some v
      | None => if String.eqb (key input) k then Some (value input) else None
      end
  end.

(* ----------------------------------------------------------------- *)
(** *** World updates *)

Definition with_settings (tbl : list settings_row) (w : World) : World :=
  {| db := {| users := users (db w); settings := tbl |};
     dates_read := dates_read w;
     uuids_drawn := uuids_drawn w;
     fetches := fetches w;
     inserts := inserts w;
     trace := trace w |}.

Definition log (e : Effect) (w : World) : World :=
  {| db := db w;
     dates_read := dates_read w;
     uuids_drawn := uuids_drawn w;
     fetches := fetches w;
     inserts := inserts w;
     trace := trace w ++ [e] |}.

Definition tick_date (w : World) : World :=
  {| db := db w;
     dates_read := S (dates_read w);
     uuids_drawn := uuids_drawn w;
     fetches := fetches w;
     inserts := inserts w;
     trace := trace w |}.

Definition tick_uuid (w : World) : World :=
  {| db := db w;
     dates_read := dates_read w;
     uuids_drawn := S (uuids_drawn w);
     fetches := fetches w;
     inserts := inserts w;
     trace := trace w |}.

Definition tick_fetch (w : World) : World :=
  {| db := db w;
     dates_read := dates_read w;
     uuids_drawn := uuids_drawn w;
     fetches := S (fetches w);
     inserts := inserts w;
     trace := trace w |}.

Definition tick_insert (w : World) : World :=
  {| db := db w;
     dates_read := dates_read w;
     uuids_drawn := uuids_drawn w;
     fetches := fetches w;
     inserts := S (inserts w);
     trace := trace w |}.

(** [`${auditResponse.status}`] *)
Definition status_to_string (st : nat) : string :=
  NilEmpty.string_of_uint (Nat.to_uint st).

(* ----------------------------------------------------------------- *)
(** *** Sample data, used by the concrete executions further down *)

Definition sample_toISOString (d : Date) : string :=
  ("t" ++ NilEmpty.string_of_int (Z.to_int d))%string.

(** Does the text contain a NUL character? *)
Fixpoint has_nul (s : string) : bool :=
  match s with
  | EmptyString => false
  | String c rest => Ascii.eqb c Ascii.zero || has_nul rest
  end.

(** A store that rejects text with a NUL character in it. *)
Definition sample_env (answer : FetchOutcome) : Env :=
  {| clock := fun n => (1000 + Z.of_nat n)%Z;
     randomUUID :=
       fun n => ("uuid-" ++ NilEmpty.string_of_uint (Nat.to_uint n))%string;
     audit_service := fun _ => answer;
     insert_rejected := fun _ r => has_nul (s_key r) || has_nul (s_value r) |}.

Definition alice : users_row :=
  {| u_id := "u1"; u_email := "alice@example.org"; u_role := ADMIN;
     u_created_at := 10%Z |}.

Definition bob : users_row :=
  {| u_id := "u2"; u_email := "bob@example.org"; u_role := MEMBER;
     u_created_at := 20%Z |}.

Definition theme_row : settings_row :=
  {| s_id := "s1"; s_user_id := "u1"; s_key := "theme";
     s_value := "light"; s_updated_at := 100%Z;
     s_updated_by := Some "u1" |}.

Definition sample_world : World :=
  {| db := {| users := [alice; bob]; settings := [theme_row] |};
     dates_read := 0; uuids_drawn := 0; fetches := 0; inserts := 0;
     trace := [] |}.

Definition as_bob : Ctx := {| ctx_userId := Some "u2"; ctx_role := Some MEMBER |}.

Definition sample_inputs : list SettingInput :=
  [ {| key := "theme"; value := "dark" |}; {| key := "lang"; value := "en" |} ].

(** A batch whose second pair the sample store rejects. *)
Definition nul_inputs : list SettingInput :=
  [ {| key := "lang"; value := "en" |};
    {| key := String Ascii.zero "k"; value := "x" |};
    {| key := "theme"; value := "dark" |} ].

Definition rejecting_validator : Excercise1.LazyQueryExecFunction :=
  fun _ =>
    Excercise1.Resolved
      {| Excercise1.error :=
           Some {| Excercise1.apollo_message := "mismatched input" |} |}.

(* ================================================================= *)
(** ** [src/nodejs/graphql-node-review.ts]: the resolvers *)

Section Resolvers.

(** [Date.prototype.toISOString], left abstract. *)
Variable toISOString : Date -> string.

Variable env : Env.

(** [new Date()] *)
Definition new_Date : M Date :=
  fun w => (tick_date w, Returned (clock env (dates_read w))).

(** [crypto.randomUUID()] *)
Definition crypto_randomUUID : M string :=
  fun w => (tick_uuid w, Returned (randomUUID env (uuids_drawn w))).

(** [fetch(url, { method: "POST", ..., body: JSON.stringify(body) })] *)
Definition fetch (url : string) (body : AuditEvent) : M Response :=
  fun w =>
    let w' := tick_fetch (log (HttpPost url body) w) in
    match audit_service env (fetches w) with
    | NetworkError => (w', Threw FetchFailed)
    | Responded st => (w', Returned {| status := st |})
    end.

(** [db.selectFrom("users").selectAll().where("id", "=", id)] *)
Definition db_select_users (id : string) : M (list users_row) :=
  fun w => (w, Returned (select_users id (users (db w)))).

(** [db.selectFrom("settings").select(count("id")).where("user_id", "=", uid)]:
    an aggregate without grouping yields one row. *)
Definition db_count_settings (uid : string) : M (list nat) :=
  fun w =>
    (w, Returned [List.length (select_settings uid (settings (db w)))]).

(** [db.insertInto("settings").values(v).onConflict(oc =>
      oc.columns(["user_id", "key"]).doUpdateSet({ value, updated_at }))
      .returning([...])], executed: the store either rejects the statement,
    which then throws and writes nothing, or performs it and returns the
    row as stored. *)
Definition db_upsert_setting (v : settings_row) (set_value : string)
           (set_updated_at : Date) : M (list settings_row) :=
  fun w =>
    if insert_rejected env (inserts w) v then
      (tick_insert w, Threw StoreError)
    else
      let (tbl', r) :=
        insertInto_settings v set_value set_updated_at (settings (db w)) in
      (log (DbUpsert r) (with_settings tbl' (tick_insert w)), Returned [r]).

Definition userView (u : users_row) : UserView :=
  {| uv_id := u_id u;
     uv_email := u_email u;
     uv_role := u_role u;
     uv_created_at := u_created_at u;
     uv_createdAt := toISOString (u_created_at u) |}.

(** [Query.user] *)
Definition Query_user (id : string) : M (option UserView) :=
  u <- executeTakeFirst (db_select_users id) ;;
  ret (option_map userView u).

(** [Query.users] *)
Definition Query_users (ids : list string) : M (list (option UserView)) :=
  rows <- Promise_all
            (map (fun id => executeTakeFirst (db_select_users id)) ids) ;;
  ret (map (option_map userView) rows).

(** [User.settingsCount]: [Number(r?.count ?? 0)] *)
Definition User_settingsCount (uid : string) : M nat :=
  r <- executeTakeFirst (db_count_settings uid) ;;
  ret (match r with Some count => count | None => 0 end).

(** [Setting.updatedBy]: [!s.updatedById] holds for a missing id and for
    the empty string. *)
Definition Setting_updatedBy (updatedById : option string)
  : M (option UserView) :=
  match updatedById with
  | None => ret None
  | Some EmptyString => ret None
  | Some id =>
      u <- executeTakeFirst (db_select_users id) ;;
      ret (option_map userView u)
  end.

Definition toUpdated (r : settings_row) : UpdatedSetting :=
  {| us_id := s_id r;
     us_key := s_key r;
     us_value := s_value r;
     us_updatedAt := toISOString (s_updated_at r);
     us_updatedById := s_updated_by r |}.

(** The [for (const { key, value } of settings)] loop of
    [updateSettings]; [updated] is the array being pushed to. *)
Fixpoint upsert_loop (userId : string) (ctx : Ctx) (now : Date)
         (inputs : list SettingInput) (updated : list UpdatedSetting)
  : M (list UpdatedSetting) :=
  match inputs with
  | [] => ret updated
  | input :: rest =>
      id <- crypto_randomUUID ;;
      r <- executeTakeFirstOrThrow
             (db_upsert_setting
                {| s_id := id;
                   s_user_id := userId;
                   s_key := key input;
                   s_value := value input;
                   s_updated_at := now;
                   s_updated_by := ctx_userId ctx |}
                (value input) now) ;;
      upsert_loop userId ctx now rest (updated ++ [toUpdated r])
  end.

Definition audit_url : string := "http://audit-service.internal/events".

Definition audit_event (userId : string) (ctx : Ctx) (now : Date)
           (updated : list UpdatedSetting) : AuditEvent :=
  {| ev_eventType := "USER_SETTINGS_UPDATED";
     ev_userId := userId;
     ev_actorId := ctx_userId ctx;
     ev_at := toISOString now;
     ev_changes :=
       map (fun s => {| key := us_key s; value := us_value s |}) updated |}.

(** The effect on the settings table of the upserts of the pairs [inputs],
    each accepted by the store, as a function of the table: the table after
    them and the rows they returned, in order.  [n] is the number of UUIDs
    drawn before the loop. *)
Fixpoint upsert_rows (userId : string) (actor : option string)
         (now : Date) (n : nat) (inputs : list SettingInput)
         (tbl : list settings_row)
  : list settings_row * list settings_row :=
  match inputs with
  | [] => (tbl, [])
  | input :: rest =>
      let (tbl', r) :=
        insertInto_settings
          {| s_id := randomUUID env n;
             s_user_id := userId;
             s_key := key input;
             s_value := value input;
             s_updated_at := now;
             s_updated_by := actor |}
          (value input) now tbl in
      let (tbl'', rows) := upsert_rows userId actor now (S n) rest tbl' in
      (tbl'', r :: rows)
  end.

(** The pairs of the batch the loop of [updateSettings] gets written: the
    pairs before the first one whose insert the store rejects, all of them
    when it rejects none.  [n] and [m] are the numbers of UUIDs drawn and of
    inserts issued before the loop. *)
Fixpoint accepted (userId : string) (actor : option string) (now : Date)
         (n m : nat) (inputs : list SettingInput) : list SettingInput :=
  match inputs with
  | [] => []
  | input :: rest =>
      if insert_rejected env m
           {| s_id := randomUUID env n;
              s_user_id := userId;
              s_key := key input;
              s_value := value input;
              s_updated_at := now;
              s_updated_by := actor |}
      then []
      else input :: accepted userId actor now (S n) (S m) rest
  end.

(** The values the loop of [updateSettings] hands to the inserts, in
    input order: one per pair, with the successive UUIDs from the [n]-th
    on. *)
Fixpoint new_rows (userId : string) (actor : option string) (now : Date)
         (n : nat) (inputs : list SettingInput) : list settings_row :=
  match inputs with
  | [] => []
  | input :: rest =>
      {| s_id := randomUUID env n;
         s_user_id := userId;
         s_key := key input;
         s_value := value input;
         s_updated_at := now;
         s_updated_by := actor |}
      :: new_rows userId actor now (S n) rest
  end.

(** An effect carries the timestamp [now]: a written row in its
    [updated_at] column, an audit call in the [at] field of its body. *)
Definition stamped (now : Date) (e : Effect) : Prop :=
  match e with
  | DbUpsert r => s_updated_at r = now
  | HttpPost _ body => ev_at body = toISOString now
  end.

(** [Mutation.updateSettings] *)
Definition updateSettings (userId : string) (inputs : list SettingInput)
           (ctx : Ctx) : M SettingsPayload :=
  u <- executeTakeFirst (db_select_users userId) ;;
  match u with
  | None => throw (JsError "User not found")
  | Some u =>
      now <- new_Date ;;
      updated <- upsert_loop userId ctx now inputs [] ;;
      auditResponse <- fetch audit_url (audit_event userId ctx now updated) ;;
      if negb (ok auditResponse) then
        throw (JsError ("Audit service failed: "
                        ++ status_to_string (status auditResponse))%string)
      else
        ret {| p_success := true;
               p_user := userView u;
               p_settings := updated |}
  end.


(* =============================================================== *)
(** ** Properties of the store *)

Lemma conflicts_same_key uid k r :
  conflicts uid k r = true -> s_user_id r = uid /\ s_key r = k.
Proof.
  unfold conflicts. intros H. apply andb_true_iff in H.
  destruct H as [H1 H2].
  apply String.eqb_eq in H1. apply String.eqb_eq in H2. now split.
Qed.

Lemma conflicts_refl r : conflicts (s_user_id r) (s_key r) r = true.
Proof. unfold conflicts. now rewrite !String.eqb_refl. Qed.

Lemma conflicts_doUpdateSet uid k sv st r :
  conflicts uid k (doUpdateSet sv st r) = conflicts uid k r.
Proof. reflexivity. Qed.

(** Two rows with the same [(user_id, key)] conflict with the same
    targets. *)
Lemma conflicts_ext uid k r1 r2 :
  s_user_id r1 = s_user_id r2 -> s_key r1 = s_key r2 ->
  conflicts uid k r1 = conflicts uid k r2.
Proof. unfold conflicts. now intros -> ->. Qed.

Lemma onConflict_none uid k sv st tbl :
  onConflict uid k sv st tbl = None <-> lookup_setting uid k tbl = None.
Proof.
  unfold lookup_setting.
  induction tbl as [|r rest IH]; simpl; [tauto|].
  destruct (conflicts uid k r); [split; discriminate|].
  destruct (onConflict uid k sv st rest) as [[rest' r']|]; rewrite <- IH;
    split; congruence.
Qed.

(** On a conflict the row in conflict is rewritten in place: the stored
    row is [doUpdateSet] of the old one, the table keeps its length and
    its keys. *)
Lemma onConflict_some uid k sv st tbl tbl' r' :
  onConflict uid k sv st tbl = Some (tbl', r') ->
  exists r,
    lookup_setting uid k tbl = Some r /\
    r' = doUpdateSet sv st r /\
    lookup_setting uid k tbl' = Some r' /\
    map (fun x => (s_user_id x, s_key x)) tbl'
    = map (fun x => (s_user_id x, s_key x)) tbl /\
    List.length tbl' = List.length tbl.
Proof.
  unfold lookup_setting.
  revert tbl' r'.
  induction tbl as [|r rest IH]; simpl; intros tbl' r' H; [discriminate|].
  destruct (conflicts uid k r) eqn:Hc.
  - inversion H; subst; clear H. exists r. simpl.
    rewrite conflicts_doUpdateSet, Hc. repeat split; reflexivity.
  - destruct (onConflict uid k sv st rest) as [[rest' r'']|]; [|discriminate].
    inversion H; subst; clear H.
    destruct (IH rest' r' eq_refl) as (r0 & H1 & H2 & H3 & H4 & H5).
    exists r0. simpl. rewrite Hc, H4, H5. repeat split; assumption.
Qed.

Lemma find_app_none {A} (f : A -> bool) l1 l2 :
  find f l1 = None -> find f (l1 ++ l2) = find f l2.
Proof.
  induction l1 as [|a l1 IH]; simpl; [reflexivity|].
  destruct (f a); [discriminate | exact IH].
Qed.

Lemma find_app_some {A} (f : A -> bool) l1 l2 a :
  find f l1 = Some a -> find f (l1 ++ l2) = Some a.
Proof.
  induction l1 as [|b l1 IH]; simpl; [discriminate|].
  destruct (f b); [trivial | exact IH].
Qed.

(** After an upsert of [v], the row of another key is the one it was,
    and the row of the key of [v] is the row the upsert returned. *)
Lemma lookup_insertInto_settings uid k v sv st tbl :
  lookup_setting uid k (fst (insertInto_settings v sv st tbl))
  = if conflicts uid k v
    then Some (snd (insertInto_settings v sv st tbl))
    else lookup_setting uid k tbl.
Proof.
  unfold insertInto_settings, lookup_setting.
  destruct (onConflict (s_user_id v) (s_key v) sv st tbl)
    as [[tbl' r']|] eqn:Hoc; simpl.
  - revert tbl' r' Hoc.
    induction tbl as [|r rest IH]; simpl; intros tbl' r' Hoc; [discriminate|].
    destruct (conflicts (s_user_id v) (s_key v) r) eqn:Hc.
    + inversion Hoc; subst; clear Hoc. simpl.
      rewrite conflicts_doUpdateSet.
      apply conflicts_same_key in Hc. destruct Hc as [Hu Hk].
      rewrite (conflicts_ext uid k r v Hu Hk).
      destruct (conflicts uid k v); reflexivity.
    + destruct (onConflict (s_user_id v) (s_key v) sv st rest)
        as [[rest' r'']|]; [|discriminate].
      inversion Hoc; subst; clear Hoc. simpl.
      destruct (conflicts uid k r) eqn:Hc'.
      * destruct (conflicts uid k v) eqn:Hv; [|reflexivity].
        apply conflicts_same_key in Hc'. apply conflicts_same_key in Hv.
        destruct Hc' as [<- <-]. destruct Hv as [Hu Hk].
        rewrite Hu, Hk, conflicts_refl in Hc. discriminate.
      * apply IH. reflexivity.
  - apply onConflict_none in Hoc. unfold lookup_setting in Hoc.
    destruct (conflicts uid k v) eqn:Hv.
    + apply conflicts_same_key in Hv. destruct Hv as [<- <-].
      rewrite (find_app_none _ _ _ Hoc). simpl.
      now rewrite conflicts_refl.
    + destruct (find (conflicts uid k) tbl) as [r|] eqn:Hf.
      * now apply find_app_some.
      * rewrite (find_app_none _ _ _ Hf). simpl. now rewrite Hv.
Qed.

(** The row an upsert returns has the key of the inserted values; when
    the [doUpdateSet] values are those of the insert, as in
    [updateSettings], it has their value and timestamp too. *)
Lemma insertInto_settings_returned v sv st tbl :
  let r := snd (insertInto_settings v sv st tbl) in
  s_user_id r = s_user_id v /\ s_key r = s_key v /\
  (s_value v = sv -> s_value r = sv) /\
  (s_updated_at v = st -> s_updated_at r = st).
Proof.
  unfold insertInto_settings.
  destruct (onConflict (s_user_id v) (s_key v) sv st tbl)
    as [[tbl' r']|] eqn:Hoc; simpl.
  - apply onConflict_some in Hoc.
    destruct Hoc as (r & Hl & -> & _). simpl.
    apply find_some in Hl. destruct Hl as [_ Hc].
    apply conflicts_same_key in Hc. tauto.
  - tauto.
Qed.

Lemma lookup_none_not_in uid k tbl :
  lookup_setting uid k tbl = None ->
  ~ In (uid, k) (map (fun x => (s_user_id x, s_key x)) tbl).
Proof.
  unfold lookup_setting. intros Hf Hin.
  apply in_map_iff in Hin. destruct Hin as (r & Hr & Hin).
  pose proof (find_none _ _ Hf r Hin) as Hc.
  inversion Hr; subst. now rewrite conflicts_refl in Hc.
Qed.

(** An upsert keeps the uniqueness constraint on [(user_id, key)]. *)
Lemma insertInto_settings_unique v sv st tbl :
  unique_keys tbl ->
  unique_keys (fst (insertInto_settings v sv st tbl)).
Proof.
  unfold unique_keys, insertInto_settings. intros Hnd.
  destruct (onConflict (s_user_id v) (s_key v) sv st tbl)
    as [[tbl' r']|] eqn:Hoc; simpl.
  - apply onConflict_some in Hoc.
    destruct Hoc as (_ & _ & _ & _ & Hkeys & _). now rewrite Hkeys.
  - apply onConflict_none in Hoc. apply lookup_none_not_in in Hoc.
    rewrite map_app. simpl.
    apply NoDup_app; [assumption | repeat constructor; simpl; tauto | ].
    intros a Ha [<- | []]. contradiction.
Qed.

Lemma rows_for_zero uid k tbl :
  ~ In (uid, k) (map (fun x => (s_user_id x, s_key x)) tbl) ->
  rows_for uid k tbl = 0.
Proof.
  unfold rows_for.
  induction tbl as [|r rest IH]; simpl; intros Hn; [reflexivity|].
  destruct (conflicts uid k r) eqn:Hc.
  - apply conflicts_same_key in Hc. destruct Hc as [<- <-]. tauto.
  - apply IH. tauto.
Qed.

(** Under the uniqueness constraint a key that has a row has one row. *)
Lemma rows_for_unique uid k tbl r :
  unique_keys tbl ->
  lookup_setting uid k tbl = Some r ->
  rows_for uid k tbl = 1.
Proof.
  unfold unique_keys, lookup_setting, rows_for.
  induction tbl as [|x rest IH]; simpl; intros Hnd Hf; [discriminate|].
  inversion Hnd as [|? ? Hnotin Hnd']; subst.
  destruct (conflicts uid k x) eqn:Hc.
  - simpl. f_equal. apply rows_for_zero.
    apply conflicts_same_key in Hc. destruct Hc as [<- <-]. assumption.
  - now apply IH.
Qed.

(** After an upsert there is exactly one row for the key written. *)
Lemma insertInto_settings_one_row v sv st tbl :
  unique_keys tbl ->
  rows_for (s_user_id v) (s_key v) (fst (insertInto_settings v sv st tbl))
  = 1.
Proof.
  intros Hnd.
  apply rows_for_unique with (r := snd (insertInto_settings v sv st tbl)).
  - now apply insertInto_settings_unique.
  - now rewrite lookup_insertInto_settings, conflicts_refl.
Qed.

(** An upsert on a key that has a row rewrites that row: value and
    timestamp are the new ones, [id] and [updated_by] are the old ones,
    and the table does not grow. *)
Lemma insertInto_settings_existing v sv st tbl r :
  lookup_setting (s_user_id v) (s_key v) tbl = Some r ->
  let (tbl', r') := insertInto_settings v sv st tbl in
  r' = doUpdateSet sv st r /\
  lookup_setting (s_user_id v) (s_key v) tbl' = Some r' /\
  List.length tbl' = List.length tbl.
Proof.
  intros Hl. unfold insertInto_settings.
  destruct (onConflict (s_user_id v) (s_key v) sv st tbl)
    as [[tbl' r']|] eqn:Hoc.
  - apply onConflict_some in Hoc.
    destruct Hoc as (r0 & Hl0 & Hr' & Hl' & _ & Hlen).
    rewrite Hl in Hl0. inversion Hl0; subst. tauto.
  - apply onConflict_none in Hoc. congruence.
Qed.

(* =============================================================== *)
(** ** The loop of [updateSettings] *)

Lemma world_eta w :
  {| db := {| users := users (db w); settings := settings (db w) |};
     dates_read := dates_read w;
     uuids_drawn := uuids_drawn w;
     fetches := fetches w;
     inserts := inserts w;
     trace := trace w |} = w.
Proof. destruct w as [[us ss] d u f i t]. reflexivity. Qed.

(** The written pairs are a prefix of the batch. *)
Lemma accepted_prefix userId actor now inputs :
  forall n m,
    accepted userId actor now n m inputs
    = firstn (List.length (accepted userId actor now n m inputs)) inputs.
Proof.
  induction inputs as [|i rest IH]; intros n m; simpl; [reflexivity|].
  destruct (insert_rejected env m _); simpl; [reflexivity|].
  now rewrite <- IH.
Qed.

Lemma accepted_length userId actor now inputs :
  forall n m,
    List.length (accepted userId actor now n m inputs) <= List.length inputs.
Proof.
  induction inputs as [|i rest IH]; intros n m; simpl; [lia|].
  destruct (insert_rejected env m _); simpl; [lia|].
  specialize (IH (S n) (S m)). lia.
Qed.

Lemma accepted_all userId actor now inputs n m :
  List.length (accepted userId actor now n m inputs) = List.length inputs ->
  accepted userId actor now n m inputs = inputs.
Proof.
  intros H. rewrite accepted_prefix, H. apply firstn_all.
Qed.

Lemma accepted_split userId actor now inputs n m :
  exists rest,
    inputs = accepted userId actor now n m inputs ++ rest.
Proof.
  exists (skipn (List.length (accepted userId actor now n m inputs)) inputs).
  rewrite accepted_prefix at 1. symmetry. apply firstn_skipn.
Qed.

Lemma accepted_In userId actor now inputs n m input :
  In input (accepted userId actor now n m inputs) -> In input inputs.
Proof.
  intros H. destruct (accepted_split userId actor now inputs n m) as (r & E).
  rewrite E. apply in_or_app. now left.
Qed.

(** The loop writes the pairs the store accepts, up to the first rejection:
    it leaves the table [upsert_rows] computes on them, logs one write per
    written pair in order, draws one UUID and issues one insert per pair
    attempted, reads no clock and calls no service.  When every pair was
    written it returns [updated] with the returned rows pushed onto it;
    otherwise it throws the store's error. *)
Lemma upsert_loop_run userId ctx now inputs :
  forall updated w,
    upsert_loop userId ctx now inputs updated w
    = let acc := accepted userId (ctx_userId ctx) now
                          (uuids_drawn w) (inserts w) inputs in
      let run := upsert_rows userId (ctx_userId ctx) now (uuids_drawn w) acc
                             (settings (db w)) in
      let all := Nat.eqb (List.length acc) (List.length inputs) in
      let attempts :=
        if all then List.length acc else S (List.length acc) in
      ({| db := {| users := users (db w); settings := fst run |};
          dates_read := dates_read w;
          uuids_drawn := uuids_drawn w + attempts;
          fetches := fetches w;
          inserts := inserts w + attempts;
          trace := trace w ++ map DbUpsert (snd run) |},
       if all then Returned (updated ++ map toUpdated (snd run))
       else Threw StoreError).
Proof.
  induction inputs as [|input rest IH]; intros updated w.
  - simpl. unfold ret. rewrite !Nat.add_0_r, !app_nil_r.
    now rewrite world_eta.
  - cbn [upsert_loop accepted].
    cbv [bind crypto_randomUUID executeTakeFirstOrThrow db_upsert_setting].
    cbn [inserts uuids_drawn tick_uuid db settings].
    destruct (insert_rejected env (inserts w) _) eqn:Hrej.
    + cbn [upsert_rows fst snd map List.length Nat.eqb].
      cbv [tick_insert tick_uuid].
      cbn [db dates_read uuids_drawn fetches inserts trace].
      rewrite !Nat.add_1_r, app_nil_r.
      destruct w as [[us ss] d u f i t]. reflexivity.
    + destruct (insertInto_settings _ (value input) now (settings (db w)))
        as [tbl' r] eqn:Hins.
      cbn [hd_error]. cbv [ret]. rewrite IH. cbv zeta.
      cbv [log with_settings tick_insert tick_uuid].
      cbn [db dates_read uuids_drawn fetches inserts trace users settings].
      cbn [upsert_rows]. rewrite Hins.
      set (acc := accepted userId (ctx_userId ctx) now (S (uuids_drawn w))
                           (S (inserts w)) rest).
      destruct (upsert_rows userId (ctx_userId ctx) now (S (uuids_drawn w))
                            acc tbl') as [tbl'' rows].
      cbn [fst snd map List.length Nat.eqb].
      rewrite <- !app_assoc. cbn [app].
      destruct (Nat.eqb (List.length acc) (List.length rest));
        rewrite ?Nat.add_succ_r; reflexivity.
Qed.

Lemma upsert_rows_changes userId actor now inputs :
  forall n tbl,
    map (fun r => {| key := s_key r; value := s_value r |})
        (snd (upsert_rows userId actor now n inputs tbl))
    = inputs.
Proof.
  induction inputs as [|input rest IH]; intros n tbl; simpl; [reflexivity|].
  destruct (insertInto_settings _ (value input) now tbl) as [tbl' r] eqn:Hins.
  specialize (IH (S n) tbl').
  destruct (upsert_rows userId actor now (S n) rest tbl') as [tbl'' rows].
  simpl in *. rewrite IH.
  pose proof (insertInto_settings_returned
                {| s_id := randomUUID env n; s_user_id := userId;
                   s_key := key input; s_value := value input;
                   s_updated_at := now; s_updated_by := actor |}
                (value input) now tbl) as H.
  rewrite Hins in H. simpl in H. destruct H as (_ & Hk & Hv & _).
  rewrite Hk, (Hv eq_refl). now destruct input.
Qed.

Lemma upsert_rows_length userId actor now inputs n tbl :
  List.length (snd (upsert_rows userId actor now n inputs tbl))
  = List.length inputs.
Proof.
  rewrite <- (upsert_rows_changes userId actor now inputs n tbl) at 2.
  now rewrite length_map.
Qed.

Lemma upsert_rows_now userId actor now inputs :
  forall n tbl,
    Forall (fun r => s_updated_at r = now /\ s_user_id r = userId)
           (snd (upsert_rows userId actor now n inputs tbl)).
Proof.
  induction inputs as [|input rest IH]; intros n tbl; simpl; [constructor|].
  destruct (insertInto_settings _ (value input) now tbl) as [tbl' r] eqn:Hins.
  specialize (IH (S n) tbl').
  destruct (upsert_rows userId actor now (S n) rest tbl') as [tbl'' rows].
  simpl in *. constructor; [|exact IH].
  pose proof (insertInto_settings_returned
                {| s_id := randomUUID env n; s_user_id := userId;
                   s_key := key input; s_value := value input;
                   s_updated_at := now; s_updated_by := actor |}
                (value input) now tbl) as H.
  rewrite Hins in H. simpl in H. destruct H as (Hu & _ & _ & Ht).
  split; [exact (Ht eq_refl) | exact Hu].
Qed.

Lemma upsert_rows_cons userId actor now n input rest tbl :
  upsert_rows userId actor now n (input :: rest) tbl
  = let ins :=
      insertInto_settings
        {| s_id := randomUUID env n; s_user_id := userId;
           s_key := key input; s_value := value input;
           s_updated_at := now; s_updated_by := actor |}
        (value input) now tbl in
    let rec := upsert_rows userId actor now (S n) rest (fst ins) in
    (fst rec, snd ins :: snd rec).
Proof.
  simpl. destruct (insertInto_settings _ (value input) now tbl) as [tbl' r].
  simpl. now destruct (upsert_rows userId actor now (S n) rest tbl').
Qed.

(** A key whose row carries [now] still has a row carrying [now] after
    further upserts of the same batch. *)
Lemma upsert_rows_keeps_now userId actor now inputs :
  forall n tbl k,
    (exists r, lookup_setting userId k tbl = Some r /\ s_updated_at r = now) ->
    exists r,
      lookup_setting userId k
                     (fst (upsert_rows userId actor now n inputs tbl))
      = Some r /\ s_updated_at r = now.
Proof.
  induction inputs as [|input rest IH]; intros n tbl k Hk; [exact Hk|].
  rewrite upsert_rows_cons. cbv zeta. simpl fst.
  apply IH. rewrite lookup_insertInto_settings.
  destruct (conflicts userId k _); [|exact Hk].
  eexists. split; [reflexivity|].
  now apply insertInto_settings_returned.
Qed.

(** After the loop every key of the batch has a row, and that row carries
    [now]. *)
Lemma upsert_rows_store userId actor now inputs :
  forall n tbl input,
    In input inputs ->
    exists r,
      lookup_setting userId (key input)
                     (fst (upsert_rows userId actor now n inputs tbl))
      = Some r /\ s_updated_at r = now.
Proof.
  induction inputs as [|i rest IH]; intros n tbl input Hin; [destruct Hin|].
  rewrite upsert_rows_cons. cbv zeta. simpl fst.
  destruct Hin as [-> | Hin]; [|now apply IH].
  apply upsert_rows_keeps_now.
  rewrite lookup_insertInto_settings. simpl.
  unfold conflicts at 1. simpl. rewrite !String.eqb_refl. simpl.
  eexists. split; [reflexivity|].
  now apply insertInto_settings_returned.
Qed.

(** The loop keeps the uniqueness constraint. *)
Lemma upsert_rows_unique userId actor now inputs :
  forall n tbl,
    unique_keys tbl ->
    unique_keys (fst (upsert_rows userId actor now n inputs tbl)).
Proof.
  induction inputs as [|i rest IH]; intros n tbl Hu; [exact Hu|].
  rewrite upsert_rows_cons. cbv zeta. simpl fst.
  apply IH. now apply insertInto_settings_unique.
Qed.

(* =============================================================== *)
(** ** [updateSettings], step by step *)

Lemma select_users_none userId tbl :
  (forall u, In u tbl -> u_id u <> userId) ->
  select_users userId tbl = [].
Proof.
  unfold select_users.
  induction tbl as [|u rest IH]; simpl; intros H; [reflexivity|].
  destruct (String.eqb (u_id u) userId) eqn:E.
  - apply String.eqb_eq in E. exfalso. apply (H u); auto.
  - apply IH. intros u' Hin. apply H. now right.
Qed.

Lemma select_users_first userId tbl :
  (exists u, In u tbl /\ u_id u = userId) ->
  exists u, hd_error (select_users userId tbl) = Some u /\
            In u tbl /\ u_id u = userId.
Proof.
  unfold select_users. intros (u & Hin & Hid).
  assert (Hf : In u (filter (fun x => String.eqb (u_id x) userId) tbl)).
  { apply filter_In. split; [assumption|]. now apply String.eqb_eq. }
  destruct (filter (fun x => String.eqb (u_id x) userId) tbl)
    as [|u0 l] eqn:E; [destruct Hf|].
  exists u0. split; [reflexivity|].
  assert (H0 : In u0 (filter (fun x => String.eqb (u_id x) userId) tbl))
    by (rewrite E; now left).
  apply filter_In in H0. destruct H0 as [H1 H2].
  apply String.eqb_eq in H2. now split.
Qed.

(** No row for [userId]: the mutation throws before anything else
    happens. *)
Lemma updateSettings_no_user userId inputs ctx w :
  hd_error (select_users userId (users (db w))) = None ->
  updateSettings userId inputs ctx w = (w, Threw (JsError "User not found")).
Proof.
  intros H. unfold updateSettings, executeTakeFirst, db_select_users.
  cbv [bind ret]. now rewrite H.
Qed.

(** A row [u] for [userId]: the whole execution of the mutation.  Either
    the store accepts every insert of the batch, and the audit service is
    called and decides the outcome; or it rejects one, and the mutation
    throws the store's error after the writes that came before, without
    calling the audit service. *)
Lemma updateSettings_run userId inputs ctx w u :
  hd_error (select_users userId (users (db w))) = Some u ->
  let now := clock env (dates_read w) in
  let acc := accepted userId (ctx_userId ctx) now
                      (uuids_drawn w) (inserts w) inputs in
  let run := upsert_rows userId (ctx_userId ctx) now (uuids_drawn w)
                         acc (settings (db w)) in
  let updated := map toUpdated (snd run) in
  updateSettings userId inputs ctx w
  = if Nat.eqb (List.length acc) (List.length inputs) then
      ({| db := {| users := users (db w); settings := fst run |};
          dates_read := S (dates_read w);
          uuids_drawn := uuids_drawn w + List.length acc;
          fetches := S (fetches w);
          inserts := inserts w + List.length acc;
          trace := trace w ++ map DbUpsert (snd run)
                     ++ [HttpPost audit_url
                                  (audit_event userId ctx now updated)] |},
       match audit_service env (fetches w) with
       | NetworkError => Threw FetchFailed
       | Responded st =>
           if ok {| status := st |} then
             Returned {| p_success := true;
                         p_user := userView u;
                         p_settings := updated |}
           else
             Threw (JsError ("Audit service failed: "
                             ++ status_to_string st)%string)
       end)
    else
      ({| db := {| users := users (db w); settings := fst run |};
          dates_read := S (dates_read w);
          uuids_drawn := uuids_drawn w + S (List.length acc);
          fetches := fetches w;
          inserts := inserts w + S (List.length acc);
          trace := trace w ++ map DbUpsert (snd run) |},
       Threw StoreError).
Proof.
  intros H now acc run updated.
  unfold updateSettings, executeTakeFirst, db_select_users.
  cbv [bind ret new_Date]. rewrite H.
  rewrite upsert_loop_run. cbv zeta.
  cbn [db dates_read uuids_drawn fetches inserts trace users settings
          tick_date].
  fold now. fold acc. fold run. subst updated.
  destruct (Nat.eqb (List.length acc) (List.length inputs)); [|reflexivity].
  cbv [fetch tick_fetch log throw].
  cbn [db dates_read uuids_drawn fetches inserts trace users settings].
  rewrite <- app_assoc.
  destruct (audit_service env (fetches w)) as [|st]; [reflexivity|].
  cbn [status]. destruct (ok {| status := st |}); reflexivity.
Qed.

(** The same, when the store accepts every insert of the batch. *)
Lemma updateSettings_run_all userId inputs ctx w u :
  hd_error (select_users userId (users (db w))) = Some u ->
  accepted userId (ctx_userId ctx) (clock env (dates_read w))
           (uuids_drawn w) (inserts w) inputs = inputs ->
  let now := clock env (dates_read w) in
  let run := upsert_rows userId (ctx_userId ctx) now (uuids_drawn w)
                         inputs (settings (db w)) in
  let updated := map toUpdated (snd run) in
  updateSettings userId inputs ctx w
  = ({| db := {| users := users (db w); settings := fst run |};
        dates_read := S (dates_read w);
        uuids_drawn := uuids_drawn w + List.length inputs;
        fetches := S (fetches w);
        inserts := inserts w + List.length inputs;
        trace := trace w ++ map DbUpsert (snd run)
                   ++ [HttpPost audit_url
                                (audit_event userId ctx now updated)] |},
     match audit_service env (fetches w) with
     | NetworkError => Threw FetchFailed
     | Responded st =>
         if ok {| status := st |} then
           Returned {| p_success := true;
                       p_user := userView u;
                       p_settings := updated |}
         else
           Threw (JsError ("Audit service failed: "
                           ++ status_to_string st)%string)
     end).
Proof.
  intros H Hall now run updated. subst now run updated.
  rewrite (updateSettings_run userId inputs ctx w u H). cbv zeta.
  rewrite Hall, Nat.eqb_refl. reflexivity.
Qed.

(** An execution that called the audit service had every insert of its
    batch accepted. *)
Lemma updateSettings_reached userId inputs ctx w u :
  hd_error (select_users userId (users (db w))) = Some u ->
  fetches (fst (updateSettings userId inputs ctx w)) = S (fetches w) ->
  accepted userId (ctx_userId ctx) (clock env (dates_read w))
           (uuids_drawn w) (inserts w) inputs = inputs.
Proof.
  intros H Hf.
  rewrite (updateSettings_run userId inputs ctx w u H) in Hf. cbv zeta in Hf.
  destruct (Nat.eqb (List.length (accepted userId (ctx_userId ctx)
                                           (clock env (dates_read w))
                                           (uuids_drawn w) (inserts w)
                                           inputs))
                    (List.length inputs)) eqn:E.
  - apply Nat.eqb_eq in E. now apply accepted_all.
  - cbn [fst fetches] in Hf. lia.
Qed.

Lemma audit_event_changes userId ctx now rows :
  ev_changes (audit_event userId ctx now (map toUpdated rows))
  = map (fun r => {| key := s_key r; value := s_value r |}) rows.
Proof. unfold audit_event. simpl. now rewrite map_map. Qed.

Lemma updated_changes rows :
  map (fun s => {| key := us_key s; value := us_value s |})
      (map toUpdated rows)
  = map (fun r => {| key := s_key r; value := s_value r |}) rows.
Proof. now rewrite map_map. Qed.

(** A returned payload comes from an execution that found the user, had
    every insert of the batch accepted by the store and got an accepting
    answer from the audit service. *)
Lemma updateSettings_returned userId inputs ctx w w' p :
  updateSettings userId inputs ctx w = (w', Returned p) ->
  exists u st,
    hd_error (select_users userId (users (db w))) = Some u /\
    accepted userId (ctx_userId ctx) (clock env (dates_read w))
             (uuids_drawn w) (inserts w) inputs = inputs /\
    audit_service env (fetches w) = Responded st /\
    ok {| status := st |} = true.
Proof.
  intros H.
  destruct (hd_error (select_users userId (users (db w)))) as [u|] eqn:Hu.
  - rewrite (updateSettings_run userId inputs ctx w u Hu) in H.
    cbv zeta in H.
    destruct (Nat.eqb (List.length (accepted userId (ctx_userId ctx)
                                             (clock env (dates_read w))
                                             (uuids_drawn w) (inserts w)
                                             inputs))
                      (List.length inputs)) eqn:E; [|discriminate].
    apply Nat.eqb_eq in E. apply accepted_all in E.
    inversion H as [[Hw Hout]]. clear H Hw.
    destruct (audit_service env (fetches w)) as [|st]; [discriminate|].
    destruct (ok {| status := st |}) eqn:Hok; [|discriminate].
    now exists u, st.
  - rewrite (updateSettings_no_user userId inputs ctx w Hu) in H.
    discriminate.
Qed.

(** Whatever the outcome, an execution that found the user leaves the
    [users] table as it was, has read the clock once, and leaves the
    [settings] table the loop computed on the written pairs. *)
Lemma updateSettings_table userId inputs ctx w u :
  hd_error (select_users userId (users (db w))) = Some u ->
  let w' := fst (updateSettings userId inputs ctx w) in
  users (db w') = users (db w) /\
  dates_read w' = S (dates_read w) /\
  settings (db w')
  = fst (upsert_rows userId (ctx_userId ctx) (clock env (dates_read w))
                     (uuids_drawn w)
                     (accepted userId (ctx_userId ctx)
                               (clock env (dates_read w))
                               (uuids_drawn w) (inserts w) inputs)
                     (settings (db w))).
Proof.
  intros Hu. rewrite (updateSettings_run userId inputs ctx w u Hu).
  cbv zeta.
  destruct (Nat.eqb _ _); repeat split.
Qed.

(** A batch of one pair, accepted by the store, whose key already has a
    row [r]: afterwards the row of that key is [doUpdateSet] of [r] (new
    value, new timestamp, the [id] and the [updated_by] of [r]) and the
    table has not grown. *)
Lemma updateSettings_existing_key userId k v ctx w u r :
  hd_error (select_users userId (users (db w))) = Some u ->
  accepted userId (ctx_userId ctx) (clock env (dates_read w))
           (uuids_drawn w) (inserts w) [{| key := k; value := v |}]
  = [{| key := k; value := v |}] ->
  lookup_setting userId k (settings (db w)) = Some r ->
  let w' := fst (updateSettings userId [{| key := k; value := v |}] ctx w) in
  lookup_setting userId k (settings (db w'))
  = Some (doUpdateSet v (clock env (dates_read w)) r) /\
  List.length (settings (db w')) = List.length (settings (db w)).
Proof.
  intros Hu Hall Hr.
  rewrite (updateSettings_run_all userId _ ctx w u Hu Hall). cbv zeta.
  cbn [fst db settings]. rewrite upsert_rows_cons. cbv zeta.
  cbn [fst upsert_rows key value].
  pose proof (insertInto_settings_existing
                {| s_id := randomUUID env (uuids_drawn w);
                   s_user_id := userId; s_key := k; s_value := v;
                   s_updated_at := clock env (dates_read w);
                   s_updated_by := ctx_userId ctx |}
                v (clock env (dates_read w)) (settings (db w)) r Hr) as H.
  destruct (insertInto_settings _ v (clock env (dates_read w))
                                (settings (db w))) as [tbl' r'].
  cbn [fst]. destruct H as (-> & Hl & Hlen). now split.
Qed.

(** The mutation keeps the uniqueness constraint on [(user_id, key)]:
    it never leaves two rows for one key of one user. *)
Lemma updateSettings_keeps_unique userId inputs ctx w :
  unique_keys (settings (db w)) ->
  unique_keys (settings (db (fst (updateSettings userId inputs ctx w)))).
Proof.
  intros Hnd.
  destruct (hd_error (select_users userId (users (db w)))) as [u|] eqn:Hu.
  - destruct (updateSettings_table userId inputs ctx w u Hu) as (_ & _ & ->).
    now apply upsert_rows_unique.
  - now rewrite (updateSettings_no_user userId inputs ctx w Hu).
Qed.

(** Every row the loop returned has, by its key, a row in the table after
    the loop, and that row carries [now]. *)
Lemma upsert_rows_returned_stored userId actor now inputs n tbl :
  Forall (fun r0 =>
            exists r,
              lookup_setting userId (s_key r0)
                             (fst (upsert_rows userId actor now n inputs tbl))
              = Some r /\ s_updated_at r = now)
         (snd (upsert_rows userId actor now n inputs tbl)).
Proof.
  apply Forall_forall. intros r0 Hin.
  apply (in_map (fun r => {| key := s_key r; value := s_value r |})) in Hin.
  rewrite upsert_rows_changes in Hin.
  exact (upsert_rows_store userId actor now inputs n tbl _ Hin).
Qed.

(* =============================================================== *)
(** ** The specification, claim by claim *)

(** C1.  When no row of [users] has the id [userId], [updateSettings]
    throws [Error("User not found")], whatever the list of pairs; the
    world is left as it was: the [settings] table is unchanged (no row
    written), the log of effects is unchanged and no [fetch] was made
    (no notification). *)
Theorem updateSettings_unknown_user userId inputs ctx w :
  (forall u, In u (users (db w)) -> u_id u <> userId) ->
  let (w', out) := updateSettings userId inputs ctx w in
  out = Threw (JsError "User not found") /\
  settings (db w') = settings (db w) /\
  trace w' = trace w /\
  fetches w' = fetches w /\
  w' = w.
Proof.
  intros Hno.
  rewrite updateSettings_no_user.
  - repeat split; reflexivity.
  - now rewrite (select_users_none _ _ Hno).
Qed.

(** C3.  When the user exists, the invocation called the audit service
    (which it does once the store has accepted every write of the batch)
    and the service answered with a status outside 200..299,
    [updateSettings] throws [Error("Audit service failed: <status>")]; the
    [settings] table it leaves is the table as it was right after the loop
    of upserts (nothing is rolled back): every key of the batch has its
    row, stamped with the timestamp of this invocation, and [settingsCount]
    computed afterwards counts the rows of that table. *)
Theorem updateSettings_audit_failure userId inputs ctx w st :
  (exists u, In u (users (db w)) /\ u_id u = userId) ->
  fetches (fst (updateSettings userId inputs ctx w)) = S (fetches w) ->
  audit_service env (fetches w) = Responded st ->
  ok {| status := st |} = false ->
  let now := clock env (dates_read w) in
  let after_loop :=
    fst (upsert_loop userId ctx now inputs [] (tick_date w)) in
  let (w', out) := updateSettings userId inputs ctx w in
  out = Threw (JsError ("Audit service failed: "
                        ++ status_to_string st)%string) /\
  settings (db w') = settings (db after_loop) /\
  Forall (fun input =>
            exists r,
              lookup_setting userId (key input) (settings (db w')) = Some r
              /\ s_updated_at r = now)
         inputs /\
  User_settingsCount userId w'
  = (w', Returned (List.length
                     (select_settings userId (settings (db after_loop))))).
Proof.
  intros Hu Hcalled Hst Hok now after_loop.
  apply select_users_first in Hu. destruct Hu as (u & Hu & _).
  pose proof (updateSettings_reached userId inputs ctx w u Hu Hcalled) as Hall.
  rewrite (updateSettings_run_all userId inputs ctx w u Hu Hall). cbv zeta.
  rewrite Hst, Hok. subst after_loop. rewrite upsert_loop_run. cbv zeta.
  cbn [db dates_read uuids_drawn fetches inserts trace users settings
          tick_date].
  fold now in Hall |- *. rewrite Hall.
  destruct (upsert_rows userId (ctx_userId ctx) now (uuids_drawn w) inputs
                        (settings (db w))) as [tbl rows] eqn:Hrun.
  cbn [fst snd db settings].
  repeat split.
  apply Forall_forall. intros input Hin.
  pose proof (upsert_rows_store userId (ctx_userId ctx) now inputs
                (uuids_drawn w) (settings (db w)) input Hin) as H.
  now rewrite Hrun in H.
Qed.

(** C4.  When [updateSettings] returns a payload, what it added to the
    log of effects is one write per input pair, in input order, followed
    by exactly one POST to the audit service: the POST is the last effect
    and the only call of [fetch].  Its body names the user and the actor
    and its [changes] are the (key, value) pairs of the batch, all of
    them, in input order. *)
Theorem updateSettings_one_event_after_upserts userId inputs ctx w w' p :
  updateSettings userId inputs ctx w = (w', Returned p) ->
  exists rows ev,
    trace w' = trace w ++ map DbUpsert rows ++ [HttpPost audit_url ev] /\
    map (fun r => {| key := s_key r; value := s_value r |}) rows = inputs /\
    ev_changes ev = inputs /\
    ev_userId ev = userId /\
    ev_actorId ev = ctx_userId ctx /\
    fetches w' = S (fetches w).
Proof.
  intros H.
  destruct (updateSettings_returned _ _ _ _ _ _ H)
    as (u & st & Hu & Hall & _ & _).
  rewrite (updateSettings_run_all userId inputs ctx w u Hu Hall) in H.
  cbv zeta in H. inversion H as [[Hw Hout]]. clear H Hout.
  eexists. eexists. cbn [trace fetches].
  split; [reflexivity|].
  rewrite audit_event_changes, upsert_rows_changes.
  repeat split; reflexivity.
Qed.

(** C5.  One invocation of [updateSettings] reads the clock at most once
    (exactly once when the user exists, not at all otherwise), and that
    reading [now] is the timestamp of everything it does, whatever its
    outcome: every row it writes has [updated_at = now] when written and
    still has it in the table the invocation leaves, and the audit event,
    when one is sent, has [at] the rendering of [now].  When a payload is
    returned, every entry of it has [updatedAt] the rendering of [now] and
    every key of the batch has a row in the table with [updated_at = now]. *)
Theorem updateSettings_single_timestamp userId inputs ctx w :
  let now := clock env (dates_read w) in
  let (w', out) := updateSettings userId inputs ctx w in
  (exists delta,
      trace w' = trace w ++ delta /\
      Forall (stamped now) delta /\
      Forall (fun e =>
                match e with
                | DbUpsert written =>
                    exists r,
                      lookup_setting userId (s_key written) (settings (db w'))
                      = Some r /\ s_updated_at r = now
                | HttpPost _ _ => True
                end)
             delta)
  /\
  match out with
  | Returned p =>
      Forall (fun s => us_updatedAt s = toISOString now) (p_settings p) /\
      Forall (fun input =>
                exists r,
                  lookup_setting userId (key input) (settings (db w'))
                  = Some r /\ s_updated_at r = now)
             inputs
  | Threw _ => True
  end
  /\
  match hd_error (select_users userId (users (db w))) with
  | None => dates_read w' = dates_read w /\
            settings (db w') = settings (db w)
  | Some _ => dates_read w' = S (dates_read w)
  end.
Proof.
  intros now.
  destruct (hd_error (select_users userId (users (db w)))) as [u|] eqn:Hu.
  - rewrite (updateSettings_run userId inputs ctx w u Hu). cbv zeta.
    fold now.
    set (acc := accepted userId (ctx_userId ctx) now (uuids_drawn w)
                         (inserts w) inputs).
    pose proof (upsert_rows_now userId (ctx_userId ctx) now acc
                  (uuids_drawn w) (settings (db w))) as Hnow.
    pose proof (upsert_rows_returned_stored userId (ctx_userId ctx) now acc
                  (uuids_drawn w) (settings (db w))) as Hkept.
    pose proof (upsert_rows_store userId (ctx_userId ctx) now acc
                  (uuids_drawn w) (settings (db w))) as Hstore.
    assert (Hstamped :
              Forall (stamped now)
                     (map DbUpsert
                          (snd (upsert_rows userId (ctx_userId ctx) now
                                            (uuids_drawn w) acc
                                            (settings (db w)))))).
    { apply Forall_map. eapply Forall_impl; [|exact Hnow].
      intros r [Hr _]. exact Hr. }
    destruct (Nat.eqb (List.length acc) (List.length inputs)) eqn:E.
    + apply Nat.eqb_eq in E. apply accepted_all in E. fold acc in E.
      destruct (upsert_rows userId (ctx_userId ctx) now (uuids_drawn w) acc
                            (settings (db w))) as [tbl rows].
      cbn [fst snd db settings trace dates_read] in *.
      split; [|split; [|reflexivity]].
      * eexists. split; [reflexivity|]. split.
        -- apply Forall_app. split; [exact Hstamped | repeat constructor].
        -- apply Forall_app. split; [|repeat constructor].
           apply Forall_map. exact Hkept.
      * destruct (audit_service env (fetches w)) as [|st]; [exact I|].
        destruct (ok {| status := st |}); [|exact I].
        cbn [p_settings]. split.
        -- apply Forall_map. eapply Forall_impl; [|exact Hnow].
           intros r [Hr _]. unfold toUpdated. simpl. now rewrite Hr.
        -- apply Forall_forall. rewrite <- E. exact Hstore.
    + destruct (upsert_rows userId (ctx_userId ctx) now (uuids_drawn w) acc
                            (settings (db w))) as [tbl rows].
      cbn [fst snd db settings trace dates_read] in *.
      split; [|split; [exact I | reflexivity]].
      eexists. split; [reflexivity|]. split; [exact Hstamped|].
      apply Forall_map. exact Hkept.
  - rewrite (updateSettings_no_user userId inputs ctx w Hu).
    split; [|split; [exact I | split; reflexivity]].
    exists []. split; [now rewrite app_nil_r|]. split; constructor.
Qed.

(** C6.  When [updateSettings] returns a payload, its [settings] list
    has as many entries as there are input pairs, and the entry at each
    position has the key and the value of the input pair at that
    position. *)
Theorem updateSettings_payload_order userId inputs ctx w w' p :
  updateSettings userId inputs ctx w = (w', Returned p) ->
  List.length (p_settings p) = List.length inputs /\
  map (fun s => {| key := us_key s; value := us_value s |}) (p_settings p)
  = inputs /\
  Forall2 (fun input s => us_key s = key input /\ us_value s = value input)
          inputs (p_settings p).
Proof.
  intros H.
  destruct (updateSettings_returned _ _ _ _ _ _ H)
    as (u & st & Hu & Hall & Hst & Hok).
  rewrite (updateSettings_run_all userId inputs ctx w u Hu Hall) in H.
  cbv zeta in H. rewrite Hst, Hok in H.
  inversion H as [[Hw Hp]]. clear H Hw. cbn [p_settings].
  assert (Hmap :
            map (fun s => {| key := us_key s; value := us_value s |})
                (map toUpdated
                     (snd (upsert_rows userId (ctx_userId ctx)
                                       (clock env (dates_read w))
                                       (uuids_drawn w) inputs
                                       (settings (db w)))))
            = inputs)
    by (rewrite updated_changes; apply upsert_rows_changes).
  split; [|split].
  - now rewrite length_map, upsert_rows_length.
  - exact Hmap.
  - rewrite <- Hmap at 1.
    generalize (map toUpdated
                    (snd (upsert_rows userId (ctx_userId ctx)
                                      (clock env (dates_read w))
                                      (uuids_drawn w) inputs
                                      (settings (db w))))).
    intros l. induction l as [|s l IH]; simpl; constructor; auto.
Qed.

Lemma Promise_all_selects ids w :
  Promise_all (map (fun id => executeTakeFirst (db_select_users id)) ids) w
  = (w, Returned
          (map (fun id => hd_error (select_users id (users (db w)))) ids)).
Proof.
  induction ids as [|id rest IH]; simpl; [reflexivity|].
  unfold bind at 1. unfold executeTakeFirst at 1, db_select_users at 1.
  cbv [bind ret] in *. now rewrite IH.
Qed.

Lemma select_users_absent id tbl :
  hd_error (select_users id tbl) = None <->
  (forall u, In u tbl -> u_id u <> id).
Proof.
  split.
  - intros Hn u Hin Hid.
    destruct (select_users_first id tbl) as (u' & Hu' & _).
    + now exists u.
    + congruence.
  - intros H. now rewrite (select_users_none _ _ H).
Qed.

(** C7.  [users(ids)] never throws and leaves the world as it was.  Its
    result is related to [ids] position by position (so it has the length
    and the order of [ids]): the entry for [id] is the view of the first
    row of [users] with that id, it is the absent marker exactly when no
    row has that id, and a populated entry carries the id asked for.  The
    entry at a position is a function of the id at that position alone. *)
Theorem Query_users_positional ids w :
  exists result,
    Query_users ids w = (w, Returned result) /\
    List.length result = List.length ids /\
    result
    = map (fun id =>
             option_map userView (hd_error (select_users id (users (db w)))))
          ids /\
    Forall2 (fun id entry =>
               (entry = None <->
                (forall u, In u (users (db w)) -> u_id u <> id)) /\
               (forall v, entry = Some v -> uv_id v = id))
            ids result.
Proof.
  eexists. split; [|split; [|split]].
  - unfold Query_users. unfold bind. rewrite Promise_all_selects.
    unfold ret. rewrite map_map. reflexivity.
  - now rewrite length_map.
  - reflexivity.
  - induction ids as [|id rest IH]; simpl; constructor; [|exact IH].
    split.
    + rewrite <- select_users_absent.
      destruct (hd_error (select_users id (users (db w))));
        simpl; split; congruence.
    + intros v Hv.
      destruct (hd_error (select_users id (users (db w)))) as [u|] eqn:Hu;
        [|discriminate].
      simpl in Hv. inversion Hv; subst; clear Hv. simpl.
      destruct (select_users_first id (users (db w))) as (u' & Hu' & _ & Hid).
      * unfold select_users in Hu.
        destruct (filter (fun x => String.eqb (u_id x) id) (users (db w)))
          as [|x l] eqn:E; [discriminate|].
        inversion Hu; subst.
        assert (Hin : In u (filter (fun x => String.eqb (u_id x) id)
                                  (users (db w))))
          by (rewrite E; now left).
        apply filter_In in Hin. destruct Hin as [Hin Heq].
        apply String.eqb_eq in Heq. now exists u.
      * congruence.
Qed.

(** C9.  With an existing user and an empty list of pairs,
    [updateSettings] writes nothing (the [settings] table is unchanged and
    no write is logged), its only effect is one POST to the audit service
    whose [changes] list is empty, and it returns a payload exactly when
    that call got a response with a status in 200..299. *)
Theorem updateSettings_empty_batch userId ctx w :
  (exists u, In u (users (db w)) /\ u_id u = userId) ->
  let (w', out) := updateSettings userId [] ctx w in
  settings (db w') = settings (db w) /\
  (exists ev,
      trace w' = trace w ++ [HttpPost audit_url ev] /\ ev_changes ev = []) /\
  fetches w' = S (fetches w) /\
  ((exists p, out = Returned p) <->
   (exists st, audit_service env (fetches w) = Responded st /\
               ok {| status := st |} = true)).
Proof.
  intros Hu.
  apply select_users_first in Hu. destruct Hu as (u & Hu & _).
  rewrite (updateSettings_run_all userId [] ctx w u Hu eq_refl). cbv zeta.
  cbn [upsert_rows fst snd map app db settings trace fetches].
  split; [reflexivity|].
  split; [eexists; split; reflexivity|].
  split; [reflexivity|].
  destruct (audit_service env (fetches w)) as [|st].
  - split.
    + intros (p & Hp). discriminate.
    + intros (st & Hst & _). discriminate.
  - destruct (ok {| status := st |}) eqn:Hok; split.
    + intros _. now exists st.
    + intros _. eexists. reflexivity.
    + intros (p & Hp). discriminate.
    + intros (st' & Hst & Hok'). inversion Hst; subst. congruence.
Qed.

(** C10.  Whatever the arguments, the world and the behaviour of the store
    and of the audit service, a payload returned by [updateSettings] has
    [success = true].  Every other outcome is a thrown value:
    [Error("User not found")], the store's error for a rejected write, the
    rejection of [fetch], or [Error("Audit service failed: <status>")] for
    a status outside 200..299. *)
Theorem updateSettings_success_flag userId inputs ctx w :
  match snd (updateSettings userId inputs ctx w) with
  | Returned p => p_success p = true
  | Threw t =>
      t = JsError "User not found" \/
      t = StoreError \/
      t = FetchFailed \/
      exists st,
        ok {| status := st |} = false /\
        t = JsError ("Audit service failed: " ++ status_to_string st)%string
  end.
Proof.
  destruct (hd_error (select_users userId (users (db w)))) as [u|] eqn:Hu.
  - rewrite (updateSettings_run userId inputs ctx w u Hu). cbv zeta.
    destruct (Nat.eqb _ _); cbn [snd]; [|now right; left].
    destruct (audit_service env (fetches w)) as [|st];
      [now right; right; left|].
    destruct (ok {| status := st |}) eqn:Hok; [reflexivity|].
    right; right; right. now exists st.
  - rewrite (updateSettings_no_user userId inputs ctx w Hu). now left.
Qed.

(* =============================================================== *)
(** ** Further properties of the store *)

Lemma insertInto_settings_fresh v sv st tbl :
  lookup_setting (s_user_id v) (s_key v) tbl = None ->
  insertInto_settings v sv st tbl = (tbl ++ [v], v).
Proof.
  intros H. unfold insertInto_settings.
  destruct (onConflict_none (s_user_id v) (s_key v) sv st tbl) as [_ Hn].
  now rewrite (Hn H).
Qed.

Lemma onConflict_other_user uid k sv st uid' :
  uid' <> uid ->
  forall tbl tbl' r',
    onConflict uid k sv st tbl = Some (tbl', r') ->
    select_settings uid' tbl' = select_settings uid' tbl.
Proof.
  intros Hne. unfold select_settings.
  induction tbl as [|r rest IH]; simpl; intros tbl' r' H; [discriminate|].
  destruct (conflicts uid k r) eqn:Hc.
  - inversion H; subst; clear H. simpl.
    apply conflicts_same_key in Hc. destruct Hc as [Hu _].
    assert (E : String.eqb (s_user_id r) uid' = false)
      by (apply String.eqb_neq; congruence).
    now rewrite E.
  - destruct (onConflict uid k sv st rest) as [[rest' r'']|]; [|discriminate].
    inversion H; subst; clear H. simpl.
    now rewrite (IH rest' r' eq_refl).
Qed.

(** An upsert for one user leaves the rows of every other user as they
    were. *)
Lemma insertInto_settings_other_user v sv st tbl uid' :
  uid' <> s_user_id v ->
  select_settings uid' (fst (insertInto_settings v sv st tbl))
  = select_settings uid' tbl.
Proof.
  intros Hne. unfold insertInto_settings.
  destruct (onConflict (s_user_id v) (s_key v) sv st tbl)
    as [[tbl' r']|] eqn:Hoc; simpl.
  - now apply (onConflict_other_user _ _ _ _ _ Hne _ _ _ Hoc).
  - unfold select_settings. rewrite filter_app. simpl.
    assert (E : String.eqb (s_user_id v) uid' = false)
      by (apply String.eqb_neq; congruence).
    rewrite E. now rewrite app_nil_r.
Qed.

Lemma upsert_rows_other_user userId actor now inputs uid' :
  uid' <> userId ->
  forall n tbl,
    select_settings uid' (fst (upsert_rows userId actor now n inputs tbl))
    = select_settings uid' tbl.
Proof.
  intros Hne.
  induction inputs as [|i rest IH]; intros n tbl; [reflexivity|].
  rewrite upsert_rows_cons. cbv zeta. simpl fst.
  rewrite IH. now apply insertInto_settings_other_user.
Qed.

(** The loop leaves alone the row of any key it is not given, and of any
    other user. *)
Lemma upsert_rows_other_key userId actor now inputs uid k :
  (uid <> userId \/ forall input, In input inputs -> key input <> k) ->
  forall n tbl,
    lookup_setting uid k (fst (upsert_rows userId actor now n inputs tbl))
    = lookup_setting uid k tbl.
Proof.
  induction inputs as [|i rest IH]; intros Hk n tbl; [reflexivity|].
  rewrite upsert_rows_cons. cbv zeta. simpl fst.
  rewrite IH.
  - rewrite lookup_insertInto_settings.
    unfold conflicts at 1. simpl.
    destruct Hk as [Hu | Hk].
    + assert (E : String.eqb userId uid = false)
        by (apply String.eqb_neq; congruence).
      now rewrite E.
    + assert (E : String.eqb (key i) k = false)
        by (apply String.eqb_neq; apply Hk; now left).
      rewrite E. now rewrite andb_false_r.
  - destruct Hk as [Hu | Hk]; [now left | right].
    intros input Hin. apply Hk. now right.
Qed.

Lemma same_identity_refl r : same_identity r r.
Proof. repeat split. Qed.

Lemma same_identity_trans r1 r2 r3 :
  same_identity r1 r2 -> same_identity r2 r3 -> same_identity r1 r3.
Proof.
  unfold same_identity. intros (A1 & A2 & A3 & A4) (B1 & B2 & B3 & B4).
  repeat split; congruence.
Qed.

Lemma Forall2_same_identity_refl tbl : Forall2 same_identity tbl tbl.
Proof. induction tbl; constructor; auto using same_identity_refl. Qed.

Lemma Forall2_same_identity_trans l1 :
  forall l2 l3,
    Forall2 same_identity l1 l2 -> Forall2 same_identity l2 l3 ->
    Forall2 same_identity l1 l3.
Proof.
  induction l1 as [|a l1 IH]; intros l2 l3 H12 H23.
  - inversion H12; subst. inversion H23; subst. constructor.
  - inversion H12; subst. inversion H23; subst. constructor.
    + eapply same_identity_trans; eassumption.
    + eapply IH; eassumption.
Qed.

Lemma onConflict_same_identity uid k sv st :
  forall tbl tbl' r',
    onConflict uid k sv st tbl = Some (tbl', r') ->
    Forall2 same_identity tbl tbl'.
Proof.
  induction tbl as [|r rest IH]; simpl; intros tbl' r' H; [discriminate|].
  destruct (conflicts uid k r).
  - inversion H; subst; clear H. constructor.
    + repeat split.
    + apply Forall2_same_identity_refl.
  - destruct (onConflict uid k sv st rest) as [[rest' r'']|]; [|discriminate].
    inversion H; subst; clear H. constructor.
    + apply same_identity_refl.
    + now apply (IH rest' r').
Qed.

(** An upsert keeps every row of the table in its place, with its [id],
    [user_id], [key] and [updated_by], and appends at most the inserted
    values. *)
Lemma insertInto_settings_shape v sv st tbl :
  exists kept added,
    fst (insertInto_settings v sv st tbl) = kept ++ added /\
    Forall2 same_identity tbl kept /\
    (added = [] \/ added = [v]).
Proof.
  unfold insertInto_settings.
  destruct (onConflict (s_user_id v) (s_key v) sv st tbl)
    as [[tbl' r']|] eqn:Hoc; simpl.
  - exists tbl', []. rewrite app_nil_r. repeat split.
    + now apply (onConflict_same_identity _ _ _ _ _ _ _ Hoc).
    + now left.
  - exists tbl, [v]. repeat split.
    + apply Forall2_same_identity_refl.
    + now right.
Qed.

Lemma upsert_rows_shape userId actor now inputs :
  forall n tbl,
    exists kept added,
      fst (upsert_rows userId actor now n inputs tbl) = kept ++ added /\
      Forall2 same_identity tbl kept /\
      List.length added <= List.length inputs /\
      Forall (fun r => s_user_id r = userId /\ s_updated_by r = actor) added.
Proof.
  induction inputs as [|i rest IH]; intros n tbl.
  - exists tbl, []. rewrite app_nil_r. simpl.
    split; [reflexivity|]. split; [apply Forall2_same_identity_refl|].
    split; [lia | constructor].
  - rewrite upsert_rows_cons. cbv zeta. simpl fst.
    destruct (insertInto_settings_shape
                {| s_id := randomUUID env n; s_user_id := userId;
                   s_key := key i; s_value := value i;
                   s_updated_at := now; s_updated_by := actor |}
                (value i) now tbl) as (kept1 & added1 & E1 & F1 & A1).
    rewrite E1.
    destruct (IH (S n) (kept1 ++ added1)) as (kept2 & added2 & E2 & F2 & L2 & U2).
    rewrite E2.
    apply Forall2_app_inv_l in F2.
    destruct F2 as (k2 & a2 & Fk & Fa & ->).
    exists k2, (a2 ++ added2). rewrite app_assoc. split; [reflexivity|].
    split; [eapply Forall2_same_identity_trans; eassumption|].
    split.
    + rewrite length_app. apply Forall2_length in Fa. rewrite <- Fa.
      simpl. destruct A1 as [-> | ->]; simpl; lia.
    + apply Forall_app. split; [|exact U2].
      destruct A1 as [-> | ->].
      * inversion Fa; subst. constructor.
      * inversion Fa as [|x y l l' Hxy Hl]; subst. inversion Hl; subst.
        constructor; [|constructor].
        destruct Hxy as (_ & Hu & _ & Hb). simpl in Hu, Hb. now split.
Qed.

Lemma select_settings_same_identity uid tbl :
  forall kept,
    Forall2 same_identity tbl kept ->
    List.length (select_settings uid kept)
    = List.length (select_settings uid tbl).
Proof.
  unfold select_settings.
  induction tbl as [|r rest IH]; intros kept H; inversion H; subst;
    [reflexivity|].
  simpl.
  match goal with Hs : same_identity r _ |- _ =>
    destruct Hs as (_ & Hu & _ & _) end.
  rewrite <- Hu.
  destruct (String.eqb (s_user_id r) uid); simpl; auto.
Qed.

Lemma select_settings_all uid added :
  Forall (fun r => s_user_id r = uid) added ->
  select_settings uid added = added.
Proof.
  unfold select_settings. induction 1 as [|r l Hr _ IH]; simpl;
    [reflexivity|].
  rewrite Hr, String.eqb_refl. now rewrite IH.
Qed.

Lemma last_value_none k inputs :
  last_value k inputs = None ->
  forall input, In input inputs -> key input <> k.
Proof.
  induction inputs as [|i rest IH]; simpl; intros H input Hin; [destruct Hin|].
  destruct (last_value k rest) as [v|]; [discriminate|].
  destruct (String.eqb (key i) k) eqn:E; [discriminate|].
  destruct Hin as [<- | Hin].
  - now apply String.eqb_neq.
  - now apply IH.
Qed.

Lemma last_value_some k inputs :
  (exists input, In input inputs /\ key input = k) ->
  exists v, last_value k inputs = Some v.
Proof.
  intros (input & Hin & Hk).
  destruct (last_value k inputs) as [v|] eqn:E; [now exists v|].
  exfalso. exact (last_value_none k inputs E input Hin Hk).
Qed.

(** Within one batch the last pair of a key decides the stored value. *)
Lemma upsert_rows_last_value userId actor now inputs :
  forall n tbl k v,
    last_value k inputs = Some v ->
    exists r,
      lookup_setting userId k
                     (fst (upsert_rows userId actor now n inputs tbl))
      = Some r /\ s_value r = v /\ s_updated_at r = now.
Proof.
  induction inputs as [|i rest IH]; intros n tbl k v H; [discriminate|].
  simpl in H. rewrite upsert_rows_cons. cbv zeta. simpl fst.
  destruct (last_value k rest) as [v'|] eqn:Hrest.
  - inversion H; subst. now apply IH.
  - destruct (String.eqb (key i) k) eqn:E; [|discriminate].
    inversion H; subst; clear H.
    rewrite upsert_rows_other_key
      by (right; now apply last_value_none).
    rewrite lookup_insertInto_settings.
    unfold conflicts at 1. simpl. rewrite String.eqb_refl, E. simpl.
    eexists. split; [reflexivity|].
    split; now apply insertInto_settings_returned.
Qed.

(** A row that is in the table keeps its [id], [user_id], [key] and
    [updated_by] through the loop, whatever the batch. *)
Lemma upsert_rows_keeps_identity userId actor now inputs :
  forall n tbl uid k r,
    lookup_setting uid k tbl = Some r ->
    exists r',
      lookup_setting uid k (fst (upsert_rows userId actor now n inputs tbl))
      = Some r' /\ same_identity r r'.
Proof.
  induction inputs as [|i rest IH]; intros n tbl uid k r Hr.
  - exists r. split; [exact Hr | apply same_identity_refl].
  - rewrite upsert_rows_cons. cbv zeta. simpl fst.
    set (v := {| s_id := randomUUID env n; s_user_id := userId;
                 s_key := key i; s_value := value i;
                 s_updated_at := now; s_updated_by := actor |}).
    assert (H1 : exists r1,
               lookup_setting uid k
                              (fst (insertInto_settings v (value i) now tbl))
               = Some r1 /\ same_identity r r1).
    { rewrite lookup_insertInto_settings.
      destruct (conflicts uid k v) eqn:Hc.
      - apply conflicts_same_key in Hc. destruct Hc as [Hu Hk].
        rewrite <- Hu, <- Hk in Hr.
        pose proof (insertInto_settings_existing v (value i) now tbl r Hr) as H.
        destruct (insertInto_settings v (value i) now tbl) as [tbl' r'].
        destruct H as (-> & _ & _). simpl.
        eexists. split; [reflexivity|]. repeat split.
      - exists r. split; [exact Hr | apply same_identity_refl]. }
    destruct H1 as (r1 & Hr1 & S1).
    destruct (IH (S n) _ uid k r1 Hr1) as (r2 & Hr2 & S2).
    exists r2. split; [exact Hr2|].
    eapply same_identity_trans; eassumption.
Qed.

(** Every row the loop returned is, up to value and timestamp, the row its
    key has in the table after the loop. *)
Lemma upsert_rows_returned_identity userId actor now inputs :
  forall n tbl,
    Forall (fun r0 =>
              exists r,
                lookup_setting userId (s_key r0)
                  (fst (upsert_rows userId actor now n inputs tbl))
                = Some r /\ same_identity r0 r)
           (snd (upsert_rows userId actor now n inputs tbl)).
Proof.
  induction inputs as [|i rest IH]; intros n tbl; [constructor|].
  rewrite upsert_rows_cons. cbv zeta. simpl fst. simpl snd.
  set (v := {| s_id := randomUUID env n; s_user_id := userId;
               s_key := key i; s_value := value i;
               s_updated_at := now; s_updated_by := actor |}).
  constructor; [|apply IH].
  apply upsert_rows_keeps_identity.
  rewrite lookup_insertInto_settings.
  destruct (insertInto_settings_returned v (value i) now tbl)
    as (_ & Hk & _ & _).
  rewrite Hk. unfold conflicts. simpl. now rewrite !String.eqb_refl.
Qed.

(** A batch of distinct keys, none of which has a row, appends exactly the
    inserted values, in input order. *)
Lemma upsert_rows_fresh userId actor now inputs :
  forall n tbl,
    NoDup (map key inputs) ->
    (forall input, In input inputs ->
                   lookup_setting userId (key input) tbl = None) ->
    upsert_rows userId actor now n inputs tbl
    = (tbl ++ new_rows userId actor now n inputs,
       new_rows userId actor now n inputs).
Proof.
  induction inputs as [|i rest IH]; intros n tbl Hnd Hnone.
  - simpl. now rewrite app_nil_r.
  - rewrite upsert_rows_cons. cbv zeta.
    inversion Hnd as [|? ? Hnotin Hnd']; subst.
    rewrite insertInto_settings_fresh
      by (simpl; apply Hnone; now left).
    simpl fst. simpl snd. rewrite IH; [| exact Hnd' |].
    + simpl. now rewrite <- app_assoc.
    + intros input Hin. unfold lookup_setting.
      rewrite find_app_none by (apply Hnone; now right).
      simpl. unfold conflicts. simpl.
      assert (E : String.eqb (key i) (key input) = false).
      { apply String.eqb_neq. intros Heq. apply Hnotin.
        rewrite Heq. now apply in_map. }
      rewrite E. now rewrite andb_false_r.
Qed.

Lemma new_rows_length userId actor now inputs :
  forall n, List.length (new_rows userId actor now n inputs)
            = List.length inputs.
Proof. induction inputs; intros n; simpl; auto. Qed.

Lemma new_rows_user userId actor now inputs :
  forall n, Forall (fun r => s_user_id r = userId)
                   (new_rows userId actor now n inputs).
Proof. induction inputs; intros n; simpl; constructor; auto. Qed.

(* =============================================================== *)
(** ** Further properties of the resolvers *)

Lemma User_settingsCount_run uid w :
  User_settingsCount uid w
  = (w, Returned (List.length (select_settings uid (settings (db w))))).
Proof. reflexivity. Qed.

Lemma Query_user_run id w :
  Query_user id w
  = (w, Returned (option_map userView
                             (hd_error (select_users id (users (db w)))))).
Proof. reflexivity. Qed.

Lemma select_users_hd id tbl u :
  hd_error (select_users id tbl) = Some u -> In u tbl /\ u_id u = id.
Proof.
  unfold select_users. intros H.
  destruct (filter (fun x => String.eqb (u_id x) id) tbl) as [|x l] eqn:E;
    [discriminate|].
  inversion H; subst.
  assert (Hin : In u (filter (fun x => String.eqb (u_id x) id) tbl))
    by (rewrite E; now left).
  apply filter_In in Hin. destruct Hin as [Hin Heq].
  apply String.eqb_eq in Heq. now split.
Qed.

(** [user(id)] never throws and leaves the world as it was.  It returns
    the absent marker exactly when no row of [users] has that id; otherwise
    it returns the view of a row of the table with that id, whose
    [createdAt] is the rendering of the row's [created_at]. *)
Theorem Query_user_lookup id w :
  exists result,
    Query_user id w = (w, Returned result) /\
    (result = None <-> (forall u, In u (users (db w)) -> u_id u <> id)) /\
    (forall v, result = Some v ->
               exists u, In u (users (db w)) /\ u_id u = id /\
                         v = userView u /\ uv_id v = id /\
                         uv_createdAt v = toISOString (u_created_at u)).
Proof.
  eexists. split; [apply Query_user_run|]. split.
  - rewrite <- select_users_absent.
    destruct (hd_error (select_users id (users (db w))));
      simpl; split; congruence.
  - intros v Hv.
    destruct (hd_error (select_users id (users (db w)))) as [u|] eqn:Hu;
      [|discriminate].
    simpl in Hv. inversion Hv; subst; clear Hv.
    apply select_users_hd in Hu. destruct Hu as [Hin Hid].
    exists u. repeat split; assumption.
Qed.

(** [users(ids)] is [user(id)] at every position: the entry for an id is
    what the single lookup returns for it, duplicates included. *)
Theorem Query_users_pointwise ids w :
  exists result,
    Query_users ids w = (w, Returned result) /\
    Forall2 (fun id entry => Query_user id w = (w, Returned entry))
            ids result.
Proof.
  eexists. split.
  - unfold Query_users. unfold bind. rewrite Promise_all_selects.
    unfold ret. rewrite map_map. reflexivity.
  - induction ids as [|id rest IH]; simpl; constructor; [|exact IH].
    apply Query_user_run.
Qed.

(** [settingsCount] never throws and leaves the world as it was; it is the
    number of [settings] rows whose [user_id] is the user's id, and it is 0
    (not an error) exactly when no row has that [user_id], which includes
    ids of no user at all. *)
Theorem User_settingsCount_counts uid w :
  exists n,
    User_settingsCount uid w = (w, Returned n) /\
    n = List.length (filter (fun s => String.eqb (s_user_id s) uid)
                            (settings (db w))) /\
    (n = 0 <-> (forall s, In s (settings (db w)) -> s_user_id s <> uid)).
Proof.
  eexists. split; [apply User_settingsCount_run|]. split; [reflexivity|].
  unfold select_settings.
  induction (settings (db w)) as [|s rest IH]; simpl.
  - split; [intros _ s [] | reflexivity].
  - destruct (String.eqb (s_user_id s) uid) eqn:E; simpl.
    + split; [discriminate|].
      intros H. apply String.eqb_eq in E. exfalso. apply (H s); auto.
    + rewrite IH. apply String.eqb_neq in E. split.
      * intros H s' [<- | Hin]; auto.
      * intros H s' Hin. apply H. now right.
Qed.

(** [updatedBy] never throws and leaves the world as it was.  It returns a
    user only for a stored actor id that is present, is not the empty
    string, and is the id of a row of [users]; the user returned has that
    id.  A missing or empty actor id gives the absent marker whatever the
    table holds. *)
Theorem Setting_updatedBy_resolves updatedById w :
  exists result,
    Setting_updatedBy updatedById w = (w, Returned result) /\
    ((exists v, result = Some v) <->
     (exists id, updatedById = Some id /\ id <> EmptyString /\
                 exists u, In u (users (db w)) /\ u_id u = id)) /\
    (forall v, result = Some v -> updatedById = Some (uv_id v)).
Proof.
  destruct updatedById as [[|c id]|].
  - exists None. split; [reflexivity|]. split.
    + split; [intros (v & Hv); discriminate|].
      intros (id & Hid & Hne & _). inversion Hid; subst. now elim Hne.
    + discriminate.
  - set (i := String c id).
    exists (option_map userView (hd_error (select_users i (users (db w))))).
    split; [reflexivity|].
    destruct (hd_error (select_users i (users (db w)))) as [u|] eqn:Hu; simpl.
    + apply select_users_hd in Hu. destruct Hu as [Hin Hid]. split.
      * split; [|intros _; eexists; reflexivity].
        intros _. exists i. split; [reflexivity|].
        split; [discriminate|]. now exists u.
      * intros v Hv. inversion Hv; subst. simpl. now rewrite Hid.
    + split; [|discriminate]. split; [intros (v & Hv); discriminate|].
      intros (i' & Hi' & _ & u & Hin & Hid).
      pose proof (proj1 (select_users_absent _ _) Hu) as Hn.
      exfalso. apply (Hn u Hin). subst i. congruence.
  - exists None. split; [reflexivity|]. split.
    + split; [intros (v & Hv); discriminate|].
      intros (id & Hid & _). discriminate.
    + discriminate.
Qed.

(** [updateSettings(userId, ...)] never changes the [users] table, and it
    leaves the rows of every other user exactly as they were, in every
    outcome; so the [settingsCount] of another user is the same before and
    after. *)
Theorem updateSettings_other_users_untouched userId inputs ctx w uid' :
  uid' <> userId ->
  let w' := fst (updateSettings userId inputs ctx w) in
  users (db w') = users (db w) /\
  select_settings uid' (settings (db w'))
  = select_settings uid' (settings (db w)) /\
  snd (User_settingsCount uid' w') = snd (User_settingsCount uid' w).
Proof.
  intros Hne w'. subst w'.
  destruct (hd_error (select_users userId (users (db w)))) as [u|] eqn:Hu.
  - destruct (updateSettings_table userId inputs ctx w u Hu)
      as (Husers & _ & Htbl).
    rewrite !User_settingsCount_run. cbn [snd].
    rewrite Htbl, (upsert_rows_other_user _ _ _ _ _ Hne).
    repeat split. exact Husers.
  - rewrite (updateSettings_no_user userId inputs ctx w Hu).
    repeat split.
Qed.

(** A key of [userId] that is not among the keys of the batch keeps its
    row exactly (or keeps having none), in every outcome. *)
Theorem updateSettings_other_keys_untouched userId inputs ctx w k :
  (forall input, In input inputs -> key input <> k) ->
  lookup_setting userId k
                 (settings (db (fst (updateSettings userId inputs ctx w))))
  = lookup_setting userId k (settings (db w)).
Proof.
  intros Hk.
  destruct (hd_error (select_users userId (users (db w)))) as [u|] eqn:Hu.
  - destruct (updateSettings_table userId inputs ctx w u Hu) as (_ & _ & ->).
    apply upsert_rows_other_key. right.
    intros input Hin. apply Hk. eapply accepted_In. exact Hin.
  - now rewrite (updateSettings_no_user userId inputs ctx w Hu).
Qed.

(** [updateSettings] never deletes or moves a row and never changes the
    [id], [user_id], [key] or [updated_by] of a row that was there: the
    table afterwards is the old rows, in place and with those columns
    intact, followed by at most one new row per pair; each new row belongs
    to [userId] and has [ctx.userId] as its [updated_by]. *)
Theorem updateSettings_rows_kept userId inputs ctx w :
  exists kept added,
    settings (db (fst (updateSettings userId inputs ctx w))) = kept ++ added /\
    Forall2 same_identity (settings (db w)) kept /\
    List.length added <= List.length inputs /\
    Forall (fun r => s_user_id r = userId /\ s_updated_by r = ctx_userId ctx)
           added.
Proof.
  destruct (hd_error (select_users userId (users (db w)))) as [u|] eqn:Hu.
  - destruct (updateSettings_table userId inputs ctx w u Hu) as (_ & _ & ->).
    destruct (upsert_rows_shape userId (ctx_userId ctx)
                (clock env (dates_read w))
                (accepted userId (ctx_userId ctx) (clock env (dates_read w))
                          (uuids_drawn w) (inserts w) inputs)
                (uuids_drawn w) (settings (db w)))
      as (kept & added & E & Hk & Hlen & Hadd).
    exists kept, added. repeat split; try assumption.
    pose proof (accepted_length userId (ctx_userId ctx)
                  (clock env (dates_read w)) inputs
                  (uuids_drawn w) (inserts w)).
    lia.
  - rewrite (updateSettings_no_user userId inputs ctx w Hu). cbn [fst].
    exists (settings (db w)), []. rewrite app_nil_r.
    split; [reflexivity|]. split; [apply Forall2_same_identity_refl|].
    split; [simpl; lia | constructor].
Qed.

(** [settingsCount(userId)] never decreases across [updateSettings] and
    grows by at most the number of pairs, in every outcome. *)
Theorem updateSettings_count_bounds userId inputs ctx w :
  exists before after,
    User_settingsCount userId w = (w, Returned before) /\
    snd (User_settingsCount userId (fst (updateSettings userId inputs ctx w)))
    = Returned after /\
    before <= after <= before + List.length inputs.
Proof.
  eexists. eexists. split; [apply User_settingsCount_run|].
  rewrite User_settingsCount_run. cbn [snd]. split; [reflexivity|].
  assert (Hshape : exists kept added,
             settings (db (fst (updateSettings userId inputs ctx w)))
             = kept ++ added /\
             Forall2 same_identity (settings (db w)) kept /\
             List.length added <= List.length inputs /\
             Forall (fun r => s_user_id r = userId) added).
  { destruct (hd_error (select_users userId (users (db w)))) as [u|] eqn:Hu.
    - destruct (updateSettings_table userId inputs ctx w u Hu) as (_ & _ & ->).
      destruct (upsert_rows_shape userId (ctx_userId ctx)
                  (clock env (dates_read w))
                  (accepted userId (ctx_userId ctx)
                            (clock env (dates_read w))
                            (uuids_drawn w) (inserts w) inputs)
                  (uuids_drawn w) (settings (db w)))
        as (kept & added & E & Hk & Hlen & Hadd).
      exists kept, added. repeat split; try assumption.
      + pose proof (accepted_length userId (ctx_userId ctx)
                      (clock env (dates_read w)) inputs
                      (uuids_drawn w) (inserts w)).
        lia.
      + eapply Forall_impl; [|exact Hadd]. now intros r [Hr _].
    - rewrite (updateSettings_no_user userId inputs ctx w Hu). cbn [fst].
      exists (settings (db w)), []. rewrite app_nil_r.
      split; [reflexivity|]. split; [apply Forall2_same_identity_refl|].
      split; [simpl; lia | constructor]. }
  destruct Hshape as (kept & added & -> & Hk & Hlen & Hadd).
  assert (Happ : select_settings userId (kept ++ added)
                 = select_settings userId kept ++ select_settings userId added)
    by apply filter_app.
  rewrite Happ, length_app.
  rewrite (select_settings_same_identity userId _ _ Hk).
  rewrite (select_settings_all userId added Hadd).
  lia.
Qed.

(** A batch of distinct keys none of which has a row yet, for an existing
    user: the table afterwards is the old table followed by one new row per
    pair written, in input order, carrying the pair's key and value, the
    timestamp of the invocation, [ctx.userId] as [updated_by] and the
    successive fresh UUIDs as [id]; [settingsCount] grows by the number of
    pairs written.  The pairs written are a prefix of the batch: the whole
    batch when the invocation got as far as calling the audit service
    (whatever it answered), fewer when the store rejected a write. *)
Theorem updateSettings_fresh_keys userId inputs ctx w :
  (exists u, In u (users (db w)) /\ u_id u = userId) ->
  NoDup (map key inputs) ->
  (forall input, In input inputs ->
                 lookup_setting userId (key input) (settings (db w)) = None) ->
  let w' := fst (updateSettings userId inputs ctx w) in
  exists written,
    written <= List.length inputs /\
    (fetches w' = S (fetches w) -> written = List.length inputs) /\
    settings (db w')
    = settings (db w)
        ++ new_rows userId (ctx_userId ctx) (clock env (dates_read w))
                    (uuids_drawn w) (firstn written inputs) /\
    List.length (select_settings userId (settings (db w')))
    = List.length (select_settings userId (settings (db w))) + written.
Proof.
  intros Hu Hnd Hnone w'. subst w'.
  apply select_users_first in Hu. destruct Hu as (u & Hu & _).
  set (acc := accepted userId (ctx_userId ctx) (clock env (dates_read w))
                       (uuids_drawn w) (inserts w) inputs).
  exists (List.length acc).
  split; [apply accepted_length|].
  split.
  { intros Hcalled.
    pose proof (updateSettings_reached userId inputs ctx w u Hu Hcalled) as H.
    fold acc in H. now rewrite H. }
  destruct (updateSettings_table userId inputs ctx w u Hu) as (_ & _ & ->).
  fold acc.
  pose proof (accepted_prefix userId (ctx_userId ctx)
                (clock env (dates_read w)) inputs
                (uuids_drawn w) (inserts w)) as Hpre.
  fold acc in Hpre. rewrite <- Hpre. clear Hpre.
  destruct (accepted_split userId (ctx_userId ctx) (clock env (dates_read w))
                           inputs (uuids_drawn w) (inserts w)) as (rest & E).
  fold acc in E.
  assert (Hnd' : NoDup (map key acc)).
  { rewrite E, map_app in Hnd. now apply NoDup_app_remove_r in Hnd. }
  assert (Hnone' : forall input, In input acc ->
                     lookup_setting userId (key input) (settings (db w))
                     = None).
  { intros input Hin. apply Hnone. rewrite E. apply in_or_app. now left. }
  rewrite (upsert_rows_fresh _ _ _ _ _ _ Hnd' Hnone'). cbn [fst].
  split; [reflexivity|].
  assert (Happ : forall a b,
             select_settings userId (a ++ b)
             = select_settings userId a ++ select_settings userId b)
    by (intros; apply filter_app).
  rewrite Happ, length_app.
  rewrite (select_settings_all userId (new_rows _ _ _ _ _))
    by apply new_rows_user.
  now rewrite new_rows_length.
Qed.

(** Within one batch the last pair of a key wins: for an existing user and
    an invocation that got as far as calling the audit service (so that the
    store accepted every write), the row of a key after [updateSettings]
    holds the value of the last pair of the batch with that key (earlier
    pairs of the same key are overwritten by the same invocation), stamped
    with the invocation's timestamp. *)
Theorem updateSettings_last_write_wins userId inputs ctx w k v :
  (exists u, In u (users (db w)) /\ u_id u = userId) ->
  fetches (fst (updateSettings userId inputs ctx w)) = S (fetches w) ->
  last_value k inputs = Some v ->
  exists r,
    lookup_setting userId k
                   (settings (db (fst (updateSettings userId inputs ctx w))))
    = Some r /\
    s_value r = v /\ s_updated_at r = clock env (dates_read w).
Proof.
  intros Hu Hcalled Hv.
  apply select_users_first in Hu. destruct Hu as (u & Hu & _).
  pose proof (updateSettings_reached userId inputs ctx w u Hu Hcalled) as Hall.
  rewrite (updateSettings_run_all userId inputs ctx w u Hu Hall). cbv zeta.
  cbn [fst db settings]. now apply upsert_rows_last_value.
Qed.

(** [updateSettings] keeps the uniqueness constraint on [(user_id, key)],
    and after an invocation for an existing user that got as far as calling
    the audit service (so that the store accepted every write), every key
    of the batch has exactly one row, also when the batch repeats a key. *)
Theorem updateSettings_batch_keys_single_row userId inputs ctx w :
  (exists u, In u (users (db w)) /\ u_id u = userId) ->
  fetches (fst (updateSettings userId inputs ctx w)) = S (fetches w) ->
  unique_keys (settings (db w)) ->
  unique_keys (settings (db (fst (updateSettings userId inputs ctx w)))) /\
  Forall (fun input =>
            rows_for userId (key input)
                     (settings (db (fst (updateSettings userId inputs ctx w))))
            = 1)
         inputs.
Proof.
  intros Hu Hcalled Hnd.
  pose proof (updateSettings_keeps_unique userId inputs ctx w Hnd) as Hnd'.
  split; [exact Hnd'|].
  apply select_users_first in Hu. destruct Hu as (u & Hu & _).
  pose proof (updateSettings_reached userId inputs ctx w u Hu Hcalled) as Hall.
  rewrite (updateSettings_run_all userId inputs ctx w u Hu Hall) in *.
  cbv zeta in *. cbn [fst db settings] in *.
  apply Forall_forall. intros input Hin.
  destruct (upsert_rows_store userId (ctx_userId ctx)
              (clock env (dates_read w)) inputs (uuids_drawn w)
              (settings (db w)) input Hin) as (r & Hr & _).
  now apply rows_for_unique with (r := r).
Qed.

(** Writing the same key twice, in two invocations that both got as far
    as calling the audit service (so that the store accepted both writes):
    under the uniqueness constraint and for an existing user,
    [updateSettings(userId, [(k, v1)])] followed by
    [updateSettings(userId, [(k, v2)])] leaves exactly one row for [k]; it
    holds [v2] and the timestamp of the second invocation, and it has the
    [id] and the [updated_by] the row had after the first invocation; the
    second invocation adds no row. *)
Theorem updateSettings_same_key_twice userId k v1 v2 ctx1 ctx2 w :
  (exists u, In u (users (db w)) /\ u_id u = userId) ->
  unique_keys (settings (db w)) ->
  let w1 := fst (updateSettings userId [{| key := k; value := v1 |}] ctx1 w) in
  let w2 := fst (updateSettings userId [{| key := k; value := v2 |}] ctx2 w1) in
  fetches w1 = S (fetches w) ->
  fetches w2 = S (fetches w1) ->
  rows_for userId k (settings (db w2)) = 1 /\
  List.length (settings (db w2)) = List.length (settings (db w1)) /\
  exists r1 r2,
    lookup_setting userId k (settings (db w1)) = Some r1 /\
    lookup_setting userId k (settings (db w2)) = Some r2 /\
    s_value r1 = v1 /\
    s_value r2 = v2 /\
    s_updated_at r2 = clock env (S (dates_read w)) /\
    same_identity r1 r2.
Proof.
  intros Hu Hnd w1 w2 Hcalled1 Hcalled2.
  assert (Hlast : last_value k [{| key := k; value := v1 |}] = Some v1)
    by (simpl; now rewrite String.eqb_refl).
  pose proof (updateSettings_keeps_unique
                userId [{| key := k; value := v1 |}] ctx1 w Hnd) as Hnd1.
  fold w1 in Hnd1.
  apply select_users_first in Hu. destruct Hu as (u & Hu & _).
  pose proof (updateSettings_reached userId _ ctx1 w u Hu Hcalled1) as Hall1.
  destruct (updateSettings_table userId [{| key := k; value := v1 |}]
                                 ctx1 w u Hu) as (Husers & Hdates & Htbl).
  fold w1 in Husers, Hdates, Htbl.
  assert (H1 : exists r1,
             lookup_setting userId k (settings (db w1)) = Some r1 /\
             s_value r1 = v1).
  { rewrite Htbl, Hall1.
    destruct (upsert_rows_last_value userId (ctx_userId ctx1)
                (clock env (dates_read w)) [{| key := k; value := v1 |}]
                (uuids_drawn w) (settings (db w)) k v1 Hlast)
      as (r & Hr & Hv & _).
    now exists r. }
  destruct H1 as (r1 & Hr1 & Hv1).
  assert (Hu1 : hd_error (select_users userId (users (db w1))) = Some u)
    by now rewrite Husers.
  pose proof (updateSettings_reached userId _ ctx2 w1 u Hu1 Hcalled2) as Hall2.
  destruct (updateSettings_existing_key userId k v2 ctx2 w1 u r1
                                        Hu1 Hall2 Hr1)
    as [Hr2 Hlen].
  fold w2 in Hr2, Hlen.
  pose proof (updateSettings_keeps_unique userId
                [{| key := k; value := v2 |}] ctx2 w1 Hnd1) as Hnd2.
  fold w2 in Hnd2.
  split; [now apply rows_for_unique
            with (r := doUpdateSet v2 (clock env (dates_read w1)) r1)|].
  split; [exact Hlen|].
  exists r1, (doUpdateSet v2 (clock env (dates_read w1)) r1).
  split; [exact Hr1|]. split; [exact Hr2|]. split; [exact Hv1|].
  split; [reflexivity|]. split; [simpl; now rewrite Hdates|].
  repeat split.
Qed.

(** When the invocation for an existing user called the audit service
    (which it does once the store has accepted every write of the batch)
    and [fetch] itself rejected (no response at all), [updateSettings]
    fails with that rejection, after exactly one POST was attempted with
    the full list of changes; the upserts stay in the table, as when the
    service answers with an error status. *)
Theorem updateSettings_fetch_rejected userId inputs ctx w :
  (exists u, In u (users (db w)) /\ u_id u = userId) ->
  fetches (fst (updateSettings userId inputs ctx w)) = S (fetches w) ->
  audit_service env (fetches w) = NetworkError ->
  let now := clock env (dates_read w) in
  let after_loop :=
    fst (upsert_loop userId ctx now inputs [] (tick_date w)) in
  let (w', out) := updateSettings userId inputs ctx w in
  out = Threw FetchFailed /\
  settings (db w') = settings (db after_loop) /\
  (exists ev,
      trace w' = trace after_loop ++ [HttpPost audit_url ev] /\
      ev_changes ev = inputs) /\
  Forall (fun input =>
            exists r,
              lookup_setting userId (key input) (settings (db w')) = Some r
              /\ s_updated_at r = now)
         inputs.
Proof.
  intros Hu Hcalled Hst now after_loop.
  apply select_users_first in Hu. destruct Hu as (u & Hu & _).
  pose proof (updateSettings_reached userId inputs ctx w u Hu Hcalled) as Hall.
  rewrite (updateSettings_run_all userId inputs ctx w u Hu Hall). cbv zeta.
  rewrite Hst. subst after_loop. rewrite upsert_loop_run. cbv zeta.
  cbn [db dates_read uuids_drawn fetches inserts trace users settings
          tick_date].
  fold now in Hall |- *. rewrite Hall.
  pose proof (upsert_rows_changes userId (ctx_userId ctx) now inputs
                (uuids_drawn w) (settings (db w))) as Hch.
  pose proof (upsert_rows_store userId (ctx_userId ctx) now inputs
                (uuids_drawn w) (settings (db w))) as Hstore.
  destruct (upsert_rows userId (ctx_userId ctx) now (uuids_drawn w) inputs
                        (settings (db w))) as [tbl rows].
  cbn [fst snd db settings trace] in *.
  split; [reflexivity|]. split; [reflexivity|]. split.
  - eexists. split; [now rewrite app_assoc|].
    now rewrite audit_event_changes.
  - apply Forall_forall. exact Hstore.
Qed.

(** The [user] of a returned payload is the view of a row of [users] whose
    id is the [userId] asked for. *)
Theorem updateSettings_payload_user userId inputs ctx w w' p :
  updateSettings userId inputs ctx w = (w', Returned p) ->
  uv_id (p_user p) = userId /\
  exists u, In u (users (db w)) /\ u_id u = userId /\ p_user p = userView u.
Proof.
  intros H.
  destruct (updateSettings_returned _ _ _ _ _ _ H)
    as (u & st & Hu & Hall & Hst & Hok).
  rewrite (updateSettings_run_all userId inputs ctx w u Hu Hall) in H.
  cbv zeta in H. rewrite Hst, Hok in H.
  inversion H as [[Hw Hp]]. clear H Hw. cbn [p_user].
  apply select_users_hd in Hu. destruct Hu as [Hin Hid].
  split; [exact Hid|]. now exists u.
Qed.

(** Every entry of a returned payload names a stored row: the key of the
    entry has a row in the table afterwards, and that row has the [id] and
    the [updated_by] the entry reports, also when the batch repeats a
    key. *)
Theorem updateSettings_payload_rows_stored userId inputs ctx w w' p :
  updateSettings userId inputs ctx w = (w', Returned p) ->
  Forall (fun s =>
            exists r,
              lookup_setting userId (us_key s) (settings (db w')) = Some r /\
              s_id r = us_id s /\ s_updated_by r = us_updatedById s)
         (p_settings p).
Proof.
  intros H.
  destruct (updateSettings_returned _ _ _ _ _ _ H)
    as (u & st & Hu & Hall & Hst & Hok).
  rewrite (updateSettings_run_all userId inputs ctx w u Hu Hall) in H.
  cbv zeta in H. rewrite Hst, Hok in H.
  inversion H as [[Hw Hp]]. clear H. cbn [p_settings db settings].
  apply Forall_map.
  eapply Forall_impl;
    [|apply (upsert_rows_returned_identity userId (ctx_userId ctx)
               (clock env (dates_read w)) inputs (uuids_drawn w)
               (settings (db w)))].
  intros r0 (r & Hr & (Hid & _ & _ & Hby)). simpl.
  exists r. repeat split; [exact Hr | now symmetry | now symmetry].
Qed.

(** When the store rejects a write of the batch, for an existing user,
    [updateSettings] throws the store's error and stops there: the audit
    service is not called and no payload is returned; the pairs before the
    rejected one were written, one write each in input order, and stay in
    the table; the rejected pair and the pairs after it leave no trace in
    the log of effects. *)
Theorem updateSettings_write_rejected userId ctx w before bad after :
  (exists u, In u (users (db w)) /\ u_id u = userId) ->
  accepted userId (ctx_userId ctx) (clock env (dates_read w))
           (uuids_drawn w) (inserts w) (before ++ bad :: after)
  = before ->
  let (w', out) := updateSettings userId (before ++ bad :: after) ctx w in
  out = Threw StoreError /\
  fetches w' = fetches w /\
  (exists rows,
      trace w' = trace w ++ map DbUpsert rows /\
      map (fun r => {| key := s_key r; value := s_value r |}) rows = before) /\
  Forall (fun input =>
            exists r,
              lookup_setting userId (key input) (settings (db w')) = Some r
              /\ s_updated_at r = clock env (dates_read w))
         before /\
  (forall k, (forall input, In input before -> key input <> k) ->
             lookup_setting userId k (settings (db w'))
             = lookup_setting userId k (settings (db w))).
Proof.
  intros Hu Hacc.
  apply select_users_first in Hu. destruct Hu as (u & Hu & _).
  rewrite (updateSettings_run userId _ ctx w u Hu). cbv zeta.
  rewrite Hacc.
  assert (E : Nat.eqb (List.length before)
                      (List.length (before ++ bad :: after)) = false).
  { apply Nat.eqb_neq. rewrite length_app. simpl. lia. }
  rewrite E.
  pose proof (upsert_rows_changes userId (ctx_userId ctx)
                (clock env (dates_read w)) before
                (uuids_drawn w) (settings (db w))) as Hch.
  pose proof (upsert_rows_store userId (ctx_userId ctx)
                (clock env (dates_read w)) before
                (uuids_drawn w) (settings (db w))) as Hstore.
  pose proof (fun k H =>
                upsert_rows_other_key userId (ctx_userId ctx)
                  (clock env (dates_read w)) before userId k H
                  (uuids_drawn w) (settings (db w))) as Hother.
  destruct (upsert_rows userId (ctx_userId ctx) (clock env (dates_read w))
                        (uuids_drawn w) before (settings (db w)))
    as [tbl rows].
  cbn [fst snd db settings trace fetches] in *.
  split; [reflexivity|]. split; [reflexivity|]. split.
  - exists rows. now split.
  - split; [apply Forall_forall; exact Hstore|].
    intros k Hk. apply Hother. now right.
Qed.

End Resolvers.

(* ================================================================= *)
(** ** The upsert on an existing key *)

(** C2.  Bob ([ctx.userId = "u2"]) updates the key ["theme"] of user
    ["u1"], whose row was last written by ["u1"].  The upsert rewrites the
    row in place: one row for the key, the same [id], the new value and the
    timestamp of the invocation, but [updated_by] still names ["u1"], while
    the audit event of the same invocation names ["u2"] as the actor. *)
Theorem updateSettings_conflict_keeps_updated_by :
  let w' :=
    fst (updateSettings sample_toISOString (sample_env (Responded 200))
                        "u1" [ {| key := "theme"; value := "dark" |} ]
                        as_bob sample_world) in
  lookup_setting "u1" "theme" (settings (db w'))
  = Some {| s_id := "s1"; s_user_id := "u1"; s_key := "theme";
            s_value := "dark"; s_updated_at := 1000%Z;
            s_updated_by := Some "u1" |} /\
  rows_for "u1" "theme" (settings (db w')) = 1 /\
  List.length (settings (db w')) = 1 /\
  trace w'
  = [ DbUpsert {| s_id := "s1"; s_user_id := "u1"; s_key := "theme";
                  s_value := "dark"; s_updated_at := 1000%Z;
                  s_updated_by := Some "u1" |};
      HttpPost "http://audit-service.internal/events"
               {| ev_eventType := "USER_SETTINGS_UPDATED";
                  ev_userId := "u1";
                  ev_actorId := Some "u2";
                  ev_at := "t1000";
                  ev_changes := [ {| key := "theme"; value := "dark" |} ] |} ].
Proof. vm_compute. repeat split; reflexivity. Qed.

(* ================================================================= *)
(** ** [schemaValidator] *)

(** C8, as stated, fails: the remote query resolves with an [error] in its
    result for the non-empty value ["a INT,"], and the validator rejects
    with a fresh [Error("Invalid schema")], not with that error. *)
Lemma schemaValidator_hides_remote_error :
  Excercise1.falsy "a INT," = false /\
  rejecting_validator {| Excercise1.sparkSchemaDDL := "a INT," |}
  = Excercise1.Resolved
      {| Excercise1.error :=
           Some {| Excercise1.apollo_message := "mismatched input" |} |} /\
  Excercise1.schemaValidator rejecting_validator "a INT,"
  = Excercise1.Rejected (Excercise1.NewError "Invalid schema") /\
  Excercise1.schemaValidator rejecting_validator "a INT,"
  <> Excercise1.Rejected
       (Excercise1.RemoteError
          {| Excercise1.apollo_message := "mismatched input" |}).
Proof.
  repeat split; try reflexivity.
  vm_compute. discriminate.
Qed.

(** C8, amended.  For a non-empty value, when the remote query resolves
    with an [error] in its result, the validator rejects with
    [Error("Invalid schema")]: the error thrown inside the [try] is caught
    by the [catch] around it and replaced. *)
Theorem schemaValidator_remote_error_collapsed
        (validator : Excercise1.LazyQueryExecFunction) (value : string)
        (e : Excercise1.ApolloError) :
  Excercise1.falsy value = false ->
  validator {| Excercise1.sparkSchemaDDL := value |}
  = Excercise1.Resolved {| Excercise1.error := Some e |} ->
  Excercise1.schemaValidator validator value
  = Excercise1.Rejected (Excercise1.NewError "Invalid schema").
Proof.
  intros Hv Hr. unfold Excercise1.schemaValidator.
  rewrite Hv, Hr. reflexivity.
Qed.

Lemma schemaValidator_remote_error_collapsed_witness :
  Excercise1.falsy "a INT," = false /\
  Excercise1.schemaValidator rejecting_validator "a INT,"
  = Excercise1.Rejected (Excercise1.NewError "Invalid schema").
Proof.
  split; [reflexivity|].
  apply (schemaValidator_remote_error_collapsed
           rejecting_validator "a INT,"
           {| Excercise1.apollo_message := "mismatched input" |});
    reflexivity.
Defined.

(* ================================================================= *)
(** ** Concrete executions *)

Lemma updateSettings_unknown_user_witness :
  (forall u, In u (users (db sample_world)) -> u_id u <> "u9") /\
  (let (w', out) :=
     updateSettings sample_toISOString (sample_env (Responded 200))
                    "u9" sample_inputs as_bob sample_world in
   out = Threw (JsError "User not found") /\
   settings (db w') = settings (db sample_world) /\
   trace w' = trace sample_world /\
   fetches w' = fetches sample_world /\
   w' = sample_world).
Proof.
  assert (H : forall u, In u (users (db sample_world)) -> u_id u <> "u9").
  { simpl. intros u [<- | [<- | []]]; discriminate. }
  split; [exact H|].
  exact (updateSettings_unknown_user
           sample_toISOString (sample_env (Responded 200))
           "u9" sample_inputs as_bob sample_world H).
Defined.

Lemma updateSettings_audit_failure_witness :
  (exists u, In u (users (db sample_world)) /\ u_id u = "u1") /\
  fetches (fst (updateSettings sample_toISOString (sample_env (Responded 503))
                               "u1" sample_inputs as_bob sample_world))
  = S (fetches sample_world) /\
  audit_service (sample_env (Responded 503)) (fetches sample_world)
  = Responded 503 /\
  ok {| status := 503 |} = false /\
  snd (updateSettings sample_toISOString (sample_env (Responded 503))
                      "u1" sample_inputs as_bob sample_world)
  = Threw (JsError "Audit service failed: 503") /\
  List.length
    (settings
       (db (fst (updateSettings sample_toISOString
                                (sample_env (Responded 503))
                                "u1" sample_inputs as_bob sample_world))))
  = 2.
Proof.
  assert (Hu : exists u, In u (users (db sample_world)) /\ u_id u = "u1").
  { exists alice. split; [now left | reflexivity]. }
  assert (Hcalled :
            fetches (fst (updateSettings sample_toISOString
                                         (sample_env (Responded 503))
                                         "u1" sample_inputs as_bob
                                         sample_world))
            = S (fetches sample_world)) by reflexivity.
  split; [exact Hu|].
  split; [exact Hcalled|].
  split; [reflexivity|].
  split; [reflexivity|].
  pose proof (updateSettings_audit_failure
                sample_toISOString (sample_env (Responded 503))
                "u1" sample_inputs as_bob sample_world 503
                Hu Hcalled eq_refl eq_refl) as W.
  cbv zeta in W.
  destruct (updateSettings sample_toISOString (sample_env (Responded 503))
                           "u1" sample_inputs as_bob sample_world)
    as [w' out].
  destruct W as (Hout & Htbl & _ & _).
  split; [exact Hout|].
  cbn [fst]. rewrite Htbl. reflexivity.
Defined.

Lemma updateSettings_one_event_after_upserts_witness :
  let run :=
    updateSettings sample_toISOString (sample_env (Responded 200))
                   "u1" sample_inputs as_bob sample_world in
  exists p,
    run = (fst run, Returned p) /\
    exists rows ev,
      trace (fst run)
      = trace sample_world ++ map DbUpsert rows
          ++ [HttpPost "http://audit-service.internal/events" ev] /\
      map (fun r => {| key := s_key r; value := s_value r |}) rows
      = sample_inputs /\
      ev_changes ev = sample_inputs /\
      ev_userId ev = "u1" /\
      ev_actorId ev = Some "u2" /\
      fetches (fst run) = 1.
Proof.
  cbv zeta. eexists. split.
  - vm_compute. reflexivity.
  - eapply (updateSettings_one_event_after_upserts
              sample_toISOString (sample_env (Responded 200))
              "u1" sample_inputs as_bob sample_world).
    vm_compute. reflexivity.
Defined.

Lemma updateSettings_payload_order_witness :
  let run :=
    updateSettings sample_toISOString (sample_env (Responded 200))
                   "u1" sample_inputs as_bob sample_world in
  exists p,
    run = (fst run, Returned p) /\
    List.length (p_settings p) = 2 /\
    map (fun s => {| key := us_key s; value := us_value s |}) (p_settings p)
    = sample_inputs /\
    Forall2 (fun input s => us_key s = key input /\ us_value s = value input)
            sample_inputs (p_settings p).
Proof.
  cbv zeta. eexists. split.
  - vm_compute. reflexivity.
  - eapply (updateSettings_payload_order
              sample_toISOString (sample_env (Responded 200))
              "u1" sample_inputs as_bob sample_world).
    vm_compute. reflexivity.
Defined.

Lemma updateSettings_empty_batch_witness :
  (exists u, In u (users (db sample_world)) /\ u_id u = "u1") /\
  (let (w', out) :=
     updateSettings sample_toISOString (sample_env (Responded 200))
                    "u1" [] as_bob sample_world in
   settings (db w') = settings (db sample_world) /\
   (exists ev,
       trace w' = trace sample_world ++ [HttpPost audit_url ev] /\
       ev_changes ev = []) /\
   fetches w' = S (fetches sample_world) /\
   ((exists p, out = Returned p) <->
    (exists st,
        audit_service (sample_env (Responded 200)) (fetches sample_world)
        = Responded st /\
        ok {| status := st |} = true))).
Proof.
  assert (Hu : exists u, In u (users (db sample_world)) /\ u_id u = "u1").
  { exists alice. split; [now left | reflexivity]. }
  split; [exact Hu|].
  exact (updateSettings_empty_batch
           sample_toISOString (sample_env (Responded 200))
           "u1" as_bob sample_world Hu).
Defined.

(* ================================================================= *)
(** ** Further properties of [schemaValidator] *)

(** The validator accepts exactly when the value is non-empty and the
    remote query resolved with no [error] in its result. *)
Theorem schemaValidator_accepts_iff
        (validator : Excercise1.LazyQueryExecFunction) (value : string) :
  Excercise1.schemaValidator validator value = Excercise1.Resolved tt <->
  (value <> EmptyString /\
   exists r,
     validator {| Excercise1.sparkSchemaDDL := value |}
     = Excercise1.Resolved r /\
     Excercise1.error r = None).
Proof.
  unfold Excercise1.schemaValidator.
  destruct value as [|c s]; simpl.
  - split; [discriminate | intros [H _]; now elim H].
  - destruct (validator {| Excercise1.sparkSchemaDDL := String c s |})
      as [r|t]; simpl.
    + destruct (Excercise1.error r) as [e|] eqn:He; simpl.
      * split; [discriminate|].
        intros (_ & r' & Hr' & He'). inversion Hr'; subst. congruence.
      * split; [|reflexivity].
        intros _. split; [discriminate|]. now exists r.
    + split; [discriminate|].
      intros (_ & r' & Hr' & _). discriminate.
Qed.

(** Whatever the remote query does, a rejection of the validator carries
    one of two freshly built errors and never a value thrown by, or
    returned from, the remote query: ["Schema is required"] for the empty
    value (the outcome then does not depend on the query), and
    ["Invalid schema"] for a non-empty value whose query rejected or
    resolved with an [error]. *)
Theorem schemaValidator_rejections
        (validator : Excercise1.LazyQueryExecFunction) (value : string) :
  match Excercise1.schemaValidator validator value with
  | Excercise1.Resolved _ => True
  | Excercise1.Rejected t =>
      (value = EmptyString /\
       t = Excercise1.NewError "Schema is required")
      \/
      (value <> EmptyString /\
       t = Excercise1.NewError "Invalid schema" /\
       match validator {| Excercise1.sparkSchemaDDL := value |} with
       | Excercise1.Rejected _ => True
       | Excercise1.Resolved r => Excercise1.error r <> None
       end)
  end.
Proof.
  unfold Excercise1.schemaValidator.
  destruct value as [|c s]; simpl.
  - now left.
  - destruct (validator {| Excercise1.sparkSchemaDDL := String c s |})
      as [r|t]; simpl.
    + destruct (Excercise1.error r) as [e|]; simpl; [|exact I].
      right. repeat split; discriminate.
    + right. repeat split. discriminate.
Qed.

(* ================================================================= *)
(** ** Further concrete executions *)

Lemma updateSettings_other_users_untouched_witness :
  "u2" <> "u1" /\
  (let w' :=
     fst (updateSettings sample_toISOString (sample_env (Responded 200))
                         "u1" sample_inputs as_bob sample_world) in
   users (db w') = users (db sample_world) /\
   select_settings "u2" (settings (db w'))
   = select_settings "u2" (settings (db sample_world)) /\
   snd (User_settingsCount "u2" w')
   = snd (User_settingsCount "u2" sample_world)).
Proof.
  assert (H : "u2" <> "u1") by discriminate.
  split; [exact H|].
  exact (updateSettings_other_users_untouched
           sample_toISOString (sample_env (Responded 200))
           "u1" sample_inputs as_bob sample_world "u2" H).
Defined.

Lemma updateSettings_other_keys_untouched_witness :
  (forall input,
      In input [ {| key := "lang"; value := "en" |} ] ->
      key input <> "theme") /\
  lookup_setting "u1" "theme"
    (settings
       (db (fst (updateSettings sample_toISOString
                                (sample_env (Responded 200)) "u1"
                                [ {| key := "lang"; value := "en" |} ]
                                as_bob sample_world))))
  = lookup_setting "u1" "theme" (settings (db sample_world)).
Proof.
  assert (H : forall input,
             In input [ {| key := "lang"; value := "en" |} ] ->
             key input <> "theme").
  { intros input [<- | []]. discriminate. }
  split; [exact H|].
  exact (updateSettings_other_keys_untouched
           sample_toISOString (sample_env (Responded 200))
           "u1" [ {| key := "lang"; value := "en" |} ] as_bob sample_world
           "theme" H).
Defined.

Lemma updateSettings_fresh_keys_witness :
  (exists u, In u (users (db sample_world)) /\ u_id u = "u2") /\
  NoDup (map key nul_inputs) /\
  (forall input, In input nul_inputs ->
                 lookup_setting "u2" (key input)
                                (settings (db sample_world)) = None) /\
  (let w' :=
     fst (updateSettings sample_toISOString (sample_env (Responded 503))
                         "u2" nul_inputs as_bob sample_world) in
   exists written,
     written <= List.length nul_inputs /\
     (fetches w' = S (fetches sample_world) ->
      written = List.length nul_inputs) /\
     settings (db w')
     = settings (db sample_world)
         ++ new_rows (sample_env (Responded 503)) "u2" (ctx_userId as_bob)
                     (clock (sample_env (Responded 503))
                            (dates_read sample_world))
                     (uuids_drawn sample_world) (firstn written nul_inputs) /\
     List.length (select_settings "u2" (settings (db w')))
     = List.length (select_settings "u2" (settings (db sample_world)))
       + written).
Proof.
  assert (Hu : exists u, In u (users (db sample_world)) /\ u_id u = "u2").
  { exists bob. split; [right; now left | reflexivity]. }
  assert (Hnd : NoDup (map key nul_inputs)).
  { simpl. constructor.
    - simpl. intros [H | [H | []]]; discriminate.
    - constructor.
      + simpl. intros [H | []]. discriminate.
      + constructor; [simpl; tauto | constructor]. }
  assert (Hnone : forall input, In input nul_inputs ->
                    lookup_setting "u2" (key input)
                                   (settings (db sample_world)) = None).
  { intros input [<- | [<- | [<- | []]]]; reflexivity. }
  split; [exact Hu|]. split; [exact Hnd|]. split; [exact Hnone|].
  exact (updateSettings_fresh_keys
           sample_toISOString (sample_env (Responded 503))
           "u2" nul_inputs as_bob sample_world Hu Hnd Hnone).
Defined.

Lemma updateSettings_last_write_wins_witness :
  (exists u, In u (users (db sample_world)) /\ u_id u = "u1") /\
  fetches
    (fst (updateSettings sample_toISOString (sample_env (Responded 200)) "u1"
                         [ {| key := "theme"; value := "dark" |};
                           {| key := "theme"; value := "blue" |} ]
                         as_bob sample_world))
  = S (fetches sample_world) /\
  last_value "theme" [ {| key := "theme"; value := "dark" |};
                       {| key := "theme"; value := "blue" |} ]
  = Some "blue" /\
  exists r,
    lookup_setting "u1" "theme"
      (settings
         (db (fst (updateSettings sample_toISOString
                                  (sample_env (Responded 200)) "u1"
                                  [ {| key := "theme"; value := "dark" |};
                                    {| key := "theme"; value := "blue" |} ]
                                  as_bob sample_world))))
    = Some r /\
    s_value r = "blue" /\
    s_updated_at r
    = clock (sample_env (Responded 200)) (dates_read sample_world).
Proof.
  assert (Hu : exists u, In u (users (db sample_world)) /\ u_id u = "u1").
  { exists alice. split; [now left | reflexivity]. }
  split; [exact Hu|]. split; [reflexivity|]. split; [reflexivity|].
  exact (updateSettings_last_write_wins
           sample_toISOString (sample_env (Responded 200)) "u1"
           [ {| key := "theme"; value := "dark" |};
             {| key := "theme"; value := "blue" |} ]
           as_bob sample_world "theme" "blue" Hu eq_refl eq_refl).
Defined.

Lemma updateSettings_batch_keys_single_row_witness :
  (exists u, In u (users (db sample_world)) /\ u_id u = "u1") /\
  fetches (fst (updateSettings sample_toISOString (sample_env (Responded 200))
                               "u1" sample_inputs as_bob sample_world))
  = S (fetches sample_world) /\
  unique_keys (settings (db sample_world)) /\
  unique_keys
    (settings
       (db (fst (updateSettings sample_toISOString
                                (sample_env (Responded 200))
                                "u1" sample_inputs as_bob sample_world)))) /\
  Forall (fun input =>
            rows_for "u1" (key input)
              (settings
                 (db (fst (updateSettings sample_toISOString
                                          (sample_env (Responded 200))
                                          "u1" sample_inputs as_bob
                                          sample_world))))
            = 1)
         sample_inputs.
Proof.
  assert (Hu : exists u, In u (users (db sample_world)) /\ u_id u = "u1").
  { exists alice. split; [now left | reflexivity]. }
  assert (Hnd : unique_keys (settings (db sample_world))).
  { unfold unique_keys. simpl. constructor; [simpl; tauto | constructor]. }
  split; [exact Hu|]. split; [reflexivity|]. split; [exact Hnd|].
  exact (updateSettings_batch_keys_single_row
           sample_toISOString (sample_env (Responded 200))
           "u1" sample_inputs as_bob sample_world Hu eq_refl Hnd).
Defined.

Lemma updateSettings_same_key_twice_witness :
  (exists u, In u (users (db sample_world)) /\ u_id u = "u2") /\
  unique_keys (settings (db sample_world)) /\
  (let w1 :=
     fst (updateSettings sample_toISOString (sample_env (Responded 200))
                         "u2" [ {| key := "lang"; value := "en" |} ]
                         as_bob sample_world) in
   let w2 :=
     fst (updateSettings sample_toISOString (sample_env (Responded 200))
                         "u2" [ {| key := "lang"; value := "fr" |} ]
                         {| ctx_userId := None; ctx_role := None |} w1) in
   fetches w1 = S (fetches sample_world) /\
   fetches w2 = S (fetches w1) /\
   rows_for "u2" "lang" (settings (db w2)) = 1 /\
   List.length (settings (db w2)) = List.length (settings (db w1)) /\
   exists r1 r2,
     lookup_setting "u2" "lang" (settings (db w1)) = Some r1 /\
     lookup_setting "u2" "lang" (settings (db w2)) = Some r2 /\
     s_value r1 = "en" /\
     s_value r2 = "fr" /\
     s_updated_at r2
     = clock (sample_env (Responded 200)) (S (dates_read sample_world)) /\
     same_identity r1 r2).
Proof.
  assert (Hu : exists u, In u (users (db sample_world)) /\ u_id u = "u2").
  { exists bob. split; [right; now left | reflexivity]. }
  assert (Hnd : unique_keys (settings (db sample_world))).
  { unfold unique_keys. simpl. constructor; [simpl; tauto | constructor]. }
  split; [exact Hu|]. split; [exact Hnd|].
  cbv zeta. split; [reflexivity|]. split; [reflexivity|].
  exact (updateSettings_same_key_twice
           sample_toISOString (sample_env (Responded 200))
           "u2" "lang" "en" "fr" as_bob
           {| ctx_userId := None; ctx_role := None |} sample_world Hu Hnd
           eq_refl eq_refl).
Defined.

Lemma updateSettings_fetch_rejected_witness :
  (exists u, In u (users (db sample_world)) /\ u_id u = "u1") /\
  fetches (fst (updateSettings sample_toISOString (sample_env NetworkError)
                               "u1" sample_inputs as_bob sample_world))
  = S (fetches sample_world) /\
  audit_service (sample_env NetworkError) (fetches sample_world)
  = NetworkError /\
  snd (updateSettings sample_toISOString (sample_env NetworkError)
                      "u1" sample_inputs as_bob sample_world)
  = Threw FetchFailed /\
  List.length
    (settings
       (db (fst (updateSettings sample_toISOString (sample_env NetworkError)
                                "u1" sample_inputs as_bob sample_world))))
  = 2.
Proof.
  assert (Hu : exists u, In u (users (db sample_world)) /\ u_id u = "u1").
  { exists alice. split; [now left | reflexivity]. }
  assert (Hcalled :
            fetches (fst (updateSettings sample_toISOString
                                         (sample_env NetworkError)
                                         "u1" sample_inputs as_bob
                                         sample_world))
            = S (fetches sample_world)) by reflexivity.
  split; [exact Hu|]. split; [exact Hcalled|]. split; [reflexivity|].
  pose proof (updateSettings_fetch_rejected
                sample_toISOString (sample_env NetworkError)
                "u1" sample_inputs as_bob sample_world Hu Hcalled eq_refl)
    as W.
  cbv zeta in W.
  destruct (updateSettings sample_toISOString (sample_env NetworkError)
                           "u1" sample_inputs as_bob sample_world)
    as [w' out].
  destruct W as (Hout & Htbl & _ & _).
  split; [exact Hout|].
  cbn [fst]. rewrite Htbl. reflexivity.
Defined.

Lemma updateSettings_payload_user_witness :
  let run :=
    updateSettings sample_toISOString (sample_env (Responded 200))
                   "u1" sample_inputs as_bob sample_world in
  exists p,
    run = (fst run, Returned p) /\
    uv_id (p_user p) = "u1" /\
    exists u, In u (users (db sample_world)) /\ u_id u = "u1" /\
              p_user p = userView sample_toISOString u.
Proof.
  cbv zeta. eexists. split.
  - vm_compute. reflexivity.
  - eapply (updateSettings_payload_user
              sample_toISOString (sample_env (Responded 200))
              "u1" sample_inputs as_bob sample_world).
    vm_compute. reflexivity.
Defined.

Lemma updateSettings_payload_rows_stored_witness :
  let run :=
    updateSettings sample_toISOString (sample_env (Responded 200))
                   "u1" sample_inputs as_bob sample_world in
  exists p,
    run = (fst run, Returned p) /\
    Forall (fun s =>
              exists r,
                lookup_setting "u1" (us_key s) (settings (db (fst run)))
                = Some r /\
                s_id r = us_id s /\ s_updated_by r = us_updatedById s)
           (p_settings p).
Proof.
  cbv zeta. eexists. split.
  - vm_compute. reflexivity.
  - eapply (updateSettings_payload_rows_stored
              sample_toISOString (sample_env (Responded 200))
              "u1" sample_inputs as_bob sample_world).
    vm_compute. reflexivity.
Defined.

Lemma updateSettings_write_rejected_witness :
  (exists u, In u (users (db sample_world)) /\ u_id u = "u1") /\
  accepted (sample_env (Responded 200)) "u1" (ctx_userId as_bob)
           (clock (sample_env (Responded 200)) (dates_read sample_world))
           (uuids_drawn sample_world) (inserts sample_world) nul_inputs
  = [ {| key := "lang"; value := "en" |} ] /\
  snd (updateSettings sample_toISOString (sample_env (Responded 200))
                      "u1" nul_inputs as_bob sample_world)
  = Threw StoreError /\
  fetches (fst (updateSettings sample_toISOString (sample_env (Responded 200))
                               "u1" nul_inputs as_bob sample_world))
  = fetches sample_world.
Proof.
  assert (Hu : exists u, In u (users (db sample_world)) /\ u_id u = "u1").
  { exists alice. split; [now left | reflexivity]. }
  split; [exact Hu|]. split; [reflexivity|].
  pose proof (updateSettings_write_rejected
                sample_toISOString (sample_env (Responded 200))
                "u1" as_bob sample_world
                [ {| key := "lang"; value := "en" |} ]
                {| key := String Ascii.zero "k"; value := "x" |}
                [ {| key := "theme"; value := "dark" |} ]
                Hu eq_refl) as W.
  change ([ {| key := "lang"; value := "en" |} ]
            ++ {| key := String Ascii.zero "k"; value := "x" |}
            :: [ {| key := "theme"; value := "dark" |} ])
    with nul_inputs in W.
  destruct (updateSettings sample_toISOString (sample_env (Responded 200))
                           "u1" nul_inputs as_bob sample_world)
    as [w' out].
  destruct W as (Hout & Hf & _).
  split; [exact Hout | exact Hf].
Defined.
